(** * AWS Multi-Session Custom Alias: the annotation engine and its store

    A shallow embedding of [src/utils/alias.js] (class [AliasManager]), of the
    storage utility (class [StorageManager]) and of the import/export message
    handlers of the background script, with the properties the specification
    states about them.

    Conventions of the model.
    - A JavaScript string is a [string]: a sequence of code units below 256.
      Every pattern of the program is ASCII, so nothing here looks inside a
      code unit.
    - The identifier-to-label mapping (a plain JS object used as a dictionary)
      is a [gmap string string].
    - The one [RegExp] object with the [g] flag that the program shares,
      [AliasManager.ACCOUNT_ID_PATTERN], carries its [lastIndex] from call to
      call; code that uses it lives in the state monad [RegExp].
    - The document is a tree of text nodes and elements. A function on an
      element takes what the element carries itself, its children, and its
      ancestors (nearest first), which [closest] looks at.
    - [JSON.parse] and [JSON.stringify] are the platform's: the store is
      modelled on the parsed documents. *)

From stdpp Require Import gmap strings list fin_maps pretty.
From Stdlib Require Import Ascii.

(** ** JavaScript string primitives *)

Module Js.

(** [\d] (without the [u] or [v] flag: ASCII digits only). *)
Definition isDigit (c : ascii) : bool :=
  match c with
  | "0" | "1" | "2" | "3" | "4" | "5" | "6" | "7" | "8" | "9" => true
  | _ => false
  end%char.

(** White space and line terminators of ECMAScript, below code unit 256. *)
Definition isWhiteSpace (c : ascii) : bool :=
  match c with
  | "009" | "010" | "011" | "012" | "013" | " " | "160" => true
  | _ => false
  end%char.

(** [s.startsWith(p)] *)
Fixpoint startsWith (s p : string) {struct p} : bool :=
  match p, s with
  | "", _ => true
  | String a p', String b s' => if decide (a = b) then startsWith s' p' else false
  | String _ _, "" => false
  end.

(** [s.includes(p)] *)
Fixpoint includes (s p : string) : bool :=
  startsWith s p ||
  match s with
  | "" => false
  | String _ s' => includes s' p
  end.

(** [s.slice(n)] for [0 <= n] *)
Fixpoint drop (n : nat) (s : string) : string :=
  match n, s with
  | 0, _ => s
  | S n', String _ s' => drop n' s'
  | S _, "" => ""
  end.

(** [s.slice(0, n)] for [0 <= n] *)
Fixpoint take (n : nat) (s : string) : string :=
  match n, s with
  | S n', String c s' => String c (take n' s')
  | _, _ => ""
  end.

(** [s.slice(a, b)] for [0 <= a <= b] *)
Definition slice (a b : nat) (s : string) : string := take (b - a) (drop a s).

Fixpoint trimStart (s : string) : string :=
  match s with
  | "" => ""
  | String c s' => if isWhiteSpace c then trimStart s' else s
  end.

Fixpoint trimEnd (s : string) : string :=
  match s with
  | "" => ""
  | String c s' =>
      match trimEnd s' with
      | "" => if isWhiteSpace c then "" else String c ""
      | r => String c r
      end
  end.

(** [s.trim()] *)
Definition trim (s : string) : string := trimEnd (trimStart s).

(** Truthiness of a string value: [""] is the only falsy string. *)
Definition truthy (s : string) : bool :=
  match s with "" => false | _ => true end.

End Js.

(** ** The shared pattern [/(\d{4}-\d{4}-\d{4}|\d{12})/g] *)

Module Pattern.

(** [\d{n}] at the head of [s]: the digits consumed and the rest. *)
Fixpoint digits (n : nat) (s : string) : option (string * string) :=
  match n with
  | 0 => Some ("", s)
  | S n' =>
      match s with
      | String c s' =>
          if Js.isDigit c
          then '(d, r) ← digits n' s'; Some (String c d, r)
          else None
      | "" => None
      end
  end.

(** The literal [-] at the head of [s]. *)
Definition hyphen (s : string) : option (string * string) :=
  match s with
  | String "-" s' => Some ("-", s')
  | _ => None
  end.

(** First alternative, [\d{4}-\d{4}-\d{4}]. *)
Definition formatted (s : string) : option (string * string) :=
  '(a, r) ← digits 4 s;
  '(h1, r) ← hyphen r;
  '(b, r) ← digits 4 r;
  '(h2, r) ← hyphen r;
  '(c, r) ← digits 4 r;
  Some (a +:+ h1 +:+ b +:+ h2 +:+ c, r).

(** The pattern anchored at the head of [s]: the alternatives are tried in
    order; the result is the matched text (capture group 1, which is the
    whole match) and what follows it. *)
Definition matchHere (s : string) : option (string * string) :=
  match formatted s with
  | Some r => Some r
  | None => digits 12 s
  end.

(** Leftmost match in [s]: the text before it, the match, the text after. *)
Fixpoint search (s : string) : option (string * string * string) :=
  match matchHere s with
  | Some (m, post) => Some ("", m, post)
  | None =>
      match s with
      | "" => None
      | String c s' =>
          '(pre, m, post) ← search s'; Some (String c pre, m, post)
      end
  end.

End Pattern.

(** ** The state of the shared [RegExp] object *)

(** A computation that may read and write [ACCOUNT_ID_PATTERN.lastIndex]. *)
Definition RegExp (A : Type) : Type := nat → A * nat.

Definition ret {A} (a : A) : RegExp A := λ lastIndex, (a, lastIndex).

Definition bind {A B} (m : RegExp A) (k : A → RegExp B) : RegExp B :=
  λ lastIndex, let '(a, lastIndex') := m lastIndex in k a lastIndex'.

Notation "x <~ m ;; k" := (bind m (λ x, k))
  (at level 100, m at next level, right associativity).

(** [l.forEach(f)], and traversals in document order, keeping the results. *)
Definition forEach {A B} (f : A → RegExp B) : list A → RegExp (list B) :=
  fix go l :=
    match l with
    | [] => ret []
    | a :: l' => b <~ f a;; bs <~ go l';; ret (b :: bs)
    end.

Module AccountIdPattern.

(** [ACCOUNT_ID_PATTERN.exec(s)] (RegExpBuiltinExec with the global flag):
    the scan starts at [lastIndex]; a match leaves [lastIndex] at its end, a
    failure resets it to 0. The result is the index of the match and its
    text. *)
Definition exec (s : string) : RegExp (option (nat * string)) :=
  λ lastIndex,
    if decide (String.length s < lastIndex) then (None, 0)
    else
      match Pattern.search (Js.drop lastIndex s) with
      | Some (pre, m, _) =>
          let index := lastIndex + String.length pre in
          (Some (index, m), index + String.length m)
      | None => (None, 0)
      end.

(** [ACCOUNT_ID_PATTERN.test(s)] *)
Definition test (s : string) : RegExp bool :=
  r <~ exec s;; ret (bool_decide (is_Some r)).

(** The loop of [RegExp.prototype[Symbol.replace]] with a callback, started
    at index 0: every match is replaced by [f] of its text. *)
Fixpoint replaceLoop (fuel : nat) (f : string → string) (s : string) : string :=
  match fuel with
  | 0 => s
  | S fuel' =>
      match Pattern.search s with
      | Some (pre, m, post) => pre +:+ f m +:+ replaceLoop fuel' f post
      | None => s
      end
  end.

(** [s.replace(ACCOUNT_ID_PATTERN, f)]: with the global flag the scan is
    restarted ([lastIndex] set to 0 first) and the last, failing, [exec]
    leaves [lastIndex] at 0. No match is empty, so [length s] rounds are
    enough. *)
Definition replace (s : string) (f : string → string) : RegExp string :=
  λ _, (replaceLoop (String.length s) f s, 0).

End AccountIdPattern.

(** ** Identifier codec *)

(** [accountId.replace(/-/g, '')] *)
Fixpoint normalizeAccountId (accountId : string) : string :=
  match accountId with
  | "" => ""
  | String c s => if decide (c = "-"%char) then normalizeAccountId s
                  else String c (normalizeAccountId s)
  end.

(** [/^\d{12}$/.test(s)] (a fresh pattern without the [g] flag: stateless). *)
Definition isAccountId (s : string) : bool :=
  match Pattern.digits 12 s with
  | Some (_, "") => true
  | _ => false
  end.

Definition formatAccountId (accountId : string) : string :=
  if bool_decide (String.length accountId = 12) && isAccountId accountId
  then Js.slice 0 4 accountId +:+ "-" +:+ Js.slice 4 8 accountId +:+ "-" +:+
       Js.slice 8 12 accountId
  else accountId.

(** ** Text rewriting *)

(** [Object.values(aliasMap)] *)
Definition values (aliasMap : gmap string string) : list string :=
  (map_to_list aliasMap).*2.

(** The callback given to [replace]: the label is appended after the
    occurrence, which keeps its textual form, when the normalized identifier
    has a truthy label in the mapping. *)
Definition withAlias (aliasMap : gmap string string) (accountId : string) : string :=
  let normalizedId := normalizeAccountId accountId in
  match aliasMap !! normalizedId with
  | Some alias =>
      if Js.truthy alias then accountId +:+ " (" +:+ alias +:+ ")" else accountId
  | None => accountId
  end.

(** [hasAlreadyProcessed], together with the test on the two parentheses
    that guards it. *)
Definition hasAlreadyProcessed (text : string) (aliasMap : gmap string string) : bool :=
  Js.includes text "(" && Js.includes text ")" &&
  existsb (λ alias, Js.includes text ("(" +:+ alias +:+ ")")) (values aliasMap).

Definition applyAliasesToText (text : string) (aliasMap : gmap string string)
  : RegExp string :=
  if hasAlreadyProcessed text aliasMap then ret text
  else AccountIdPattern.replace text (withAlias aliasMap).

(** ** The document tree *)

(** What an element carries itself: its local name and its attributes
    (names in lower case, as the HTML parser stores them). *)
Record element := mkElement {
  tagName : string;
  attributes : gmap string string;
}.

#[warnings="-register-all"]
Inductive node :=
| Text (nodeValue : string)
| Element (e : element) (childNodes : list node).

(** [node.textContent] *)
Fixpoint textContent (n : node) : string :=
  match n with
  | Text v => v
  | Element _ cs => foldr (λ c acc, textContent c +:+ acc) "" cs
  end.

(** [textContent] of an element with children [cs]. *)
Definition textOf (cs : list node) : string :=
  foldr (λ c acc, textContent c +:+ acc) "" cs.

(** *** Selectors *)

(** The simple selectors the program uses. *)
Inductive selector :=
| AttrContains (name value : string)   (* [name*="value"] *)
| AttrEquals (name value : string)     (* [name="value"] *)
| Tag (name : string)                  (* name *)
| Class (name : string).               (* .name *)

(** ASCII whitespace, which separates class names. *)
Definition isAsciiWhitespace (c : ascii) : bool :=
  match c with
  | "009" | "010" | "012" | "013" | " " => true
  | _ => false
  end%char.

Fixpoint splitOnWhitespace (s : string) : list string :=
  match s with
  | "" => [""]
  | String c s' =>
      if isAsciiWhitespace c then "" :: splitOnWhitespace s'
      else match splitOnWhitespace s' with
           | w :: ws => String c w :: ws
           | [] => [String c ""]
           end
  end.

(** [element.classList] *)
Definition classList (e : element) : list string :=
  match attributes e !! "class" with
  | Some v => filter (λ w, w ≠ "") (splitOnWhitespace v)
  | None => []
  end.

Definition matchesSelector (e : element) (sel : selector) : bool :=
  match sel with
  | AttrContains name value =>
      match attributes e !! name with
      | Some v => Js.truthy value && Js.includes v value
      | None => false
      end
  | AttrEquals name value => bool_decide (attributes e !! name = Some value)
  | Tag name => bool_decide (tagName e = name)
  | Class name => bool_decide (name ∈ classList e)
  end.

(** [element.matches(selectors.join(','))] *)
Definition matches (e : element) (selectors : list selector) : bool :=
  existsb (matchesSelector e) selectors.

(** [n] is an element that matches, or has a descendant that does. *)
Fixpoint matchesWithin (selectors : list selector) (n : node) : bool :=
  match n with
  | Text _ => false
  | Element e cs => matches e selectors || existsb (matchesWithin selectors) cs
  end.

(** [element.querySelector(selectors) !== null], for an element with
    children [cs]: descendants only, not the element itself. *)
Definition querySelectorFinds (selectors : list selector) (cs : list node) : bool :=
  existsb (matchesWithin selectors) cs.

(** [EXCLUDE_SELECTORS]. The third entry, [[data-*="arn"]], is read by the
    selector grammar as the attribute named [data-] with the matcher [*=]. *)
Definition EXCLUDE_SELECTORS : list selector :=
  [ AttrContains "class" "arn";
    AttrContains "id" "arn";
    AttrContains "data-" "arn";
    AttrContains "class" "resource-id";
    AttrContains "class" "resourceId";
    Tag "code";
    Tag "pre";
    Class "code-block";
    Class "code-snippet";
    Class "template-editor";
    Class "json-viewer";
    Class "yaml-viewer" ].

Definition ALIAS_SPAN : list selector := [ Class "aws-custom-alias" ].

Definition ALIAS_APPLIED : list selector :=
  [ AttrEquals "data-alias-applied" "true" ].

(** [element.dataset.aliasApplied === 'true'] *)
Definition aliasApplied (e : element) : bool :=
  bool_decide (attributes e !! "data-alias-applied" = Some "true").

(** [element.dataset.aliasApplied = 'true'] *)
Definition setAliasApplied (e : element) : element :=
  mkElement (tagName e) (<["data-alias-applied" := "true"]> (attributes e)).

(** [delete element.dataset.aliasApplied] *)
Definition deleteAliasApplied (e : element) : element :=
  mkElement (tagName e) (delete "data-alias-applied" (attributes e)).

(** ** Scope classifier *)

(** [isExcludedElement(element)] for the element [e] with children [cs]
    whose ancestors, nearest first, are [ancestors]. [closest] looks at the
    element itself and then at its ancestors. *)
Definition isExcludedElement (ancestors : list element) (e : element)
    (cs : list node) : bool :=
  if matches e EXCLUDE_SELECTORS then true
  else if existsb (λ a, matches a EXCLUDE_SELECTORS) (e :: ancestors) then true
  else
    let text := textOf cs in
    if Js.includes text "arn:aws:" || Js.includes text "arn:aws-cn:" then true
    else false.

(** ** Annotator *)

(** *** Wrapping the labels: the markup given to [innerHTML] *)

(** [[^)]*], greedy: the longest prefix without [)] and the rest. *)
Fixpoint untilParen (s : string) : string * string :=
  match s with
  | "" => ("", "")
  | String c s' =>
      if decide (c = ")"%char) then ("", s)
      else let '(a, r) := untilParen s' in (String c a, r)
  end.

(** [/(\d{4}-\d{4}-\d{4}|\d{12}) \(([^)]+)\)/] anchored at the head of [s]:
    group 1, group 2 and what follows the match. When the first alternative
    matches, the second cannot (its fifth character is a hyphen), so no
    backtracking into the second alternative is lost. *)
Definition labelledHere (s : string) : option (string * string * string) :=
  '(id, r) ← Pattern.matchHere s;
  match r with
  | String " " (String "(" r') =>
      match untilParen r' with
      | (String c label, String ")" rest) => Some (id, String c label, rest)
      | _ => None
      end
  | _ => None
  end.

Definition quote : string := String "034" "".

Definition spanOpen : string :=
  "<span class=" +:+ quote +:+ "aws-custom-alias" +:+ quote +:+ ">".

Definition spanClose : string := "</span>".

Fixpoint wrapLoop (fuel : nat) (s : string) : string :=
  match fuel with
  | 0 => s
  | S fuel' =>
      match labelledHere s with
      | Some (id, label, rest) =>
          id +:+ " " +:+ spanOpen +:+ "(" +:+ label +:+ ")" +:+ spanClose +:+
          wrapLoop fuel' rest
      | None =>
          match s with
          | "" => ""
          | String c s' => String c (wrapLoop fuel' s')
          end
      end
  end.

(** [newText.replace(/(...) \(([^)]+)\)/g,
      '$1 <span class=...>($2)</span>')] *)
Definition wrapAliases (newText : string) : string :=
  wrapLoop (String.length newText) newText.

(** *** Reading the markup back: [tempDiv.innerHTML = ...]

    The HTML fragment parser is modelled on the markup that [wrapAliases]
    builds from text free of the characters the tokenizer treats specially
    ([<], [&], NUL and CR): runs of character data and the spans written
    above. On any other input the model is silent ([None]). *)

Definition isMarkupFree (c : ascii) : bool :=
  match c with
  | "<" | "&" | "000" | "013" => false
  | _ => true
  end%char.

(** Character data up to the next [<] or the end of input. *)
Fixpoint charData (s : string) : option (string * string) :=
  match s with
  | "" => Some ("", "")
  | String c s' =>
      if decide (c = "<"%char) then Some ("", s)
      else if isMarkupFree c
           then '(d, r) ← charData s'; Some (String c d, r)
           else None
  end.

(** [s] without its prefix [p]. *)
Fixpoint stripPrefix (p s : string) {struct p} : option string :=
  match p, s with
  | "", _ => Some s
  | String a p', String b s' => if decide (a = b) then stripPrefix p' s' else None
  | String _ _, "" => None
  end.

Definition textNode (data : string) : list node :=
  match data with
  | "" => []
  | _ => [Text data]
  end.

Definition aliasSpan (data : string) : node :=
  Element (mkElement "span" {[ "class" := "aws-custom-alias" ]}) (textNode data).

Fixpoint parseLoop (fuel : nat) (s : string) : option (list node) :=
  match fuel with
  | 0 => None
  | S fuel' =>
      '(data, r) ← charData s;
      match r with
      | "" => Some (textNode data)
      | _ =>
          r ← stripPrefix spanOpen r;
          '(inner, r) ← charData r;
          r ← stripPrefix spanClose r;
          rest ← parseLoop fuel' r;
          Some (textNode data ++ aliasSpan inner :: rest)
      end
  end.

(** The child nodes of [tempDiv] after [tempDiv.innerHTML = html]. *)
Definition parseFragment (html : string) : option (list node) :=
  parseLoop (S (String.length html)) html.

(** *** The tree walker

    [createTreeWalker(element, SHOW_TEXT, { acceptNode })] shows the text nodes
    under [element] in document order; [textNodes] keeps those the filter
    accepts. The whole list is built before anything is rewritten. *)

(** [acceptNode(node)] for a text node of value [nodeValue] whose parent
    element is excluded or not. *)
Definition acceptNode (parentExcluded : bool) (nodeValue : string) : RegExp bool :=
  if negb (Js.truthy (Js.trim nodeValue)) then ret false
  else if parentExcluded then ret false
  else AccountIdPattern.test nodeValue.

(** The filter's answer for every text node under [n], in document order.
    [parentExcluded] is [isExcludedElement(node.parentElement)]. *)
Fixpoint walk (ancestors : list element) (parentExcluded : bool) (n : node)
  : RegExp (list bool) :=
  match n with
  | Text v => accepted <~ acceptNode parentExcluded v;; ret [accepted]
  | Element e cs =>
      bs <~ forEach (walk (e :: ancestors) (isExcludedElement ancestors e cs)) cs;;
      ret (concat bs)
  end.

(** The values of the text nodes under [n], in document order. *)
Fixpoint textNodes (n : node) : list string :=
  match n with
  | Text v => [v]
  | Element _ cs => concat (map textNodes cs)
  end.

(** *** Rewriting the accepted text nodes *)

(** The body of [textNodes.forEach]: what stands in the place of the text node
    afterwards. A text node the filter rejected is not in [textNodes] and
    stays; nodes have no identity here, so a node that stays is given as
    itself. *)
Definition updateTextNode (aliasMap : gmap string string)
    (shown : bool * string) : RegExp (option (list node)) :=
  let '(accepted, originalText) := shown in
  if accepted then
    newText <~ applyAliasesToText originalText aliasMap;;
    ret (if decide (originalText = newText) then Some [Text originalText]
         else parseFragment (wrapAliases newText))
  else ret (Some [Text originalText]).

(** [parentNode.replaceChild(fragment, textNode)] for every text node of a
    list of siblings and below: the text nodes, in document order, give way
    to the fragments [fs]; what is left of [fs] is returned too. *)
Definition spliceEach (splice : node → list (list node) → list node * list (list node))
  : list node → list (list node) → list node * list (list node) :=
  fix go cs fs :=
    match cs with
    | [] => ([], fs)
    | c :: cs0 =>
        let '(c', fs1) := splice c fs in
        let '(cs', fs2) := go cs0 fs1 in
        (c' ++ cs', fs2)
    end.

Fixpoint splice (n : node) (fs : list (list node)) : list node * list (list node) :=
  match n with
  | Text _ =>
      match fs with
      | f :: fs' => (f, fs')
      | [] => ([n], [])
      end
  | Element e cs =>
      let '(cs', fs') := spliceEach splice cs fs in
      ([Element e cs'], fs')
  end.

(** [applyAliasToElement(element, aliasMap)] for the element [e] with
    children [cs] and ancestors [ancestors]: the element afterwards. *)
Definition applyAliasToElement (ancestors : list element) (e : element)
    (cs : list node) (aliasMap : gmap string string) : RegExp (option node) :=
  if isExcludedElement ancestors e cs then ret (Some (Element e cs))
  else if aliasApplied e then ret (Some (Element e cs))
  else if querySelectorFinds ALIAS_SPAN cs
  then ret (Some (Element (setAliasApplied e) cs))
  else
    accepted <~ walk ancestors false (Element e cs);;
    fragments <~ forEach (updateTextNode aliasMap)
                   (zip accepted (textNodes (Element e cs)));;
    ret (fs ← mapM id fragments;
         Some (Element (setAliasApplied e) (spliceEach splice cs fs).1)).

(** *** Clearing *)

(** [/ \([^)]+\)$/] anchored at the head of [s]. *)
Definition trailingAliasHere (s : string) : bool :=
  match s with
  | String " " (String "(" r) =>
      match untilParen r with
      | (String _ _, ")") => true
      | _ => false
      end
  | _ => false
  end.

(** [text.replace(/ \([^)]+\)$/, '')] *)
Fixpoint stripTrailingAlias (text : string) : string :=
  if trailingAliasHere text then ""
  else match text with
       | "" => ""
       | String c s => String c (stripTrailingAlias s)
       end.

(** The effect on the previous sibling of a span about to be removed;
    [before] holds the siblings before the span, nearest first. *)
Definition stripPreviousSibling (before : list node) : list node :=
  match before with
  | Text text :: rest => Text (stripTrailingAlias text) :: rest
  | _ => before
  end.

Definition isAliasSpan (n : node) : bool :=
  match n with
  | Text _ => false
  | Element e _ => matches e ALIAS_SPAN
  end.

(** The first loop of [clearAliasesFromElement] on a list of siblings and
    below. The spans are visited in document order: a span is taken out of
    its parent after the text node that precedes it at that moment has been
    stripped; what happens later to the spans inside a removed span is not
    seen in the document. [before] holds the siblings already visited,
    nearest first. *)
Definition removeSpansEach (removeSpans : node → node)
  : list node → list node → list node :=
  fix go before cs :=
    match cs with
    | [] => rev before
    | c :: cs' =>
        if isAliasSpan c then go (stripPreviousSibling before) cs'
        else go (removeSpans c :: before) cs'
    end.

Fixpoint removeAliasSpans (n : node) : node :=
  match n with
  | Text _ => n
  | Element e cs => Element e (removeSpansEach removeAliasSpans [] cs)
  end.

(** The second loop, on [n] and below: every element that matches
    [[data-alias-applied="true"]] loses the attribute. *)
Fixpoint removeMarks (n : node) : node :=
  match n with
  | Text _ => n
  | Element e cs =>
      Element (if matches e ALIAS_APPLIED then deleteAliasApplied e else e)
              (map removeMarks cs)
  end.

(** [clearAliasesFromElement(element)]: both queries are [querySelectorAll]
    on the element, which looks at its descendants only. *)
Definition clearAliasesFromElement (e : element) (cs : list node) : node :=
  Element e (map removeMarks (removeSpansEach removeAliasSpans [] cs)).

(** *** The callers

    The body of the loop of [applyAliasesToPage] over all the elements of the
    document; the loop of [applyAliasesToNavigation] over the elements of
    its navigation selectors has the same body. An element that is not marked
    and in whose text content the shared pattern finds an identifier goes to
    [applyAliasToElement]. *)
Definition applyAliasesToPage_element (ancestors : list element) (e : element)
    (cs : list node) (aliasMap : gmap string string) : RegExp (option node) :=
  if negb (aliasApplied e) then
    found <~ AccountIdPattern.test (textOf cs);;
    if found then applyAliasToElement ancestors e cs aliasMap
    else ret (Some (Element e cs))
  else ret (Some (Element e cs)).

(** ** The identifier-to-label store *)

(** A value read by [JSON.parse] or kept in [chrome.storage.local]. The
    members of an object come in the order in which [for-in] and
    [Object.entries] enumerate them, each key once. Only truthiness is asked
    of a number, so integers stand for all of them. *)
#[warnings="-register-all"]
Inductive json :=
| JNull
| JBool (b : bool)
| JNumber (n : Z)
| JString (s : string)
| JArray (items : list json)
| JObject (members : list (string * json)).

Inductive result (A : Type) :=
| Ok (a : A)
| Error (message : string).
Arguments Ok {A} a.
Arguments Error {A} message.

Module Json.

Definition truthy (v : json) : bool :=
  match v with
  | JNull => false
  | JBool b => b
  | JNumber n => bool_decide (n ≠ 0%Z)
  | JString s => Js.truthy s
  | JArray _ | JObject _ => true
  end.

(** [typeof v === 'object'] *)
Definition typeofObject (v : json) : bool :=
  match v with
  | JNull | JArray _ | JObject _ => true
  | _ => false
  end.

(** [v === null] *)
Definition isNull (v : json) : bool :=
  match v with
  | JNull => true
  | _ => false
  end.

(** [typeof v === 'string'] *)
Definition typeofString (v : json) : bool :=
  match v with
  | JString _ => true
  | _ => false
  end.

Fixpoint lookup (key : string) (members : list (string * json)) : option json :=
  match members with
  | [] => None
  | (k, v) :: rest => if decide (k = key) then Some v else lookup key rest
  end.

(** [v[key]] for a value [v] that is neither [null] nor [undefined], and a
    key that is no array index and not [length]; [None] is [undefined]. *)
Definition get (v : json) (key : string) : option json :=
  match v with
  | JObject members => lookup key members
  | _ => None
  end.

(** [Object.entries(v)], which is also the order of [for (key in v)], for
    an object or an array. *)
Definition entries (v : json) : list (string * json) :=
  match v with
  | JObject members => members
  | JArray items => imap (λ i item, (pretty i, item)) items
  | _ => []
  end.

End Json.

(** The value under the key ['aws_account_aliases'] of
    [chrome.storage.local]; [None] when the key is not set. *)
Definition storage : Type := option json.

Module StorageManager.

(** [getAllAliases()]: [result[STORAGE_KEY] || {}] *)
Definition getAllAliases (st : storage) : json :=
  match st with
  | Some v => if Json.truthy v then v else JObject []
  | None => JObject []
  end.

(** [exportAliases()]: the document handed to [JSON.stringify(_, null, 2)]. *)
Definition exportAliases (st : storage) : json := getAllAliases st.

(** The first key of [aliases] that is not twelve digits, as the [for-in]
    loop finds it. *)
Definition firstInvalidKey (aliases : json) : option string :=
  (λ found : nat * (string * json), found.2.1) <$>
  list_find (λ entry : string * json, isAccountId entry.1 = false)
            (Json.entries aliases).

(** [importAliases(jsonData)]; [parsed] is the outcome of
    [JSON.parse(jsonData)], an [Error] carrying the message of the
    [SyntaxError]. The result is the outcome of the promise and the storage
    afterwards. *)
Definition importAliases (parsed : result json) (st : storage)
  : result unit * storage :=
  let failed (message : string) : result unit * storage :=
    (Error ("Failed to import aliases: " +:+ message), st) in
  match parsed with
  | Error message => failed message
  | Ok aliases =>
      if negb (Json.typeofObject aliases) || Json.isNull aliases
      then failed "Invalid alias data format"
      else match firstInvalidKey aliases with
           | Some accountId => failed ("Invalid account ID: " +:+ accountId)
           | None => (Ok (), Some aliases)
           end
  end.

End StorageManager.

(** The message handlers of the background script. A handler answers with
    [sendResponse({ success: true, data })] or
    [sendResponse({ success: false, error })]: a [result]. *)
Module Background.

(** [handleExportAliases]: the document handed to
    [JSON.stringify(_, null, 2)]; [now] is [new Date().toISOString()]. *)
Definition handleExportAliases (now : string) (st : storage) : result json :=
  let aliases :=
    match st with
    | Some v => if Json.truthy v then v else JObject []
    | None => JObject []
    end in
  Ok (JObject [ ("version", JString "1.0.0");
                ("exportedAt", JString now);
                ("aliases", aliases) ]).

(** The body of the validation loop: the message thrown for an entry. *)
Definition invalidEntry (entry : string * json) : option string :=
  let '(accountId, alias) := entry in
  if negb (isAccountId accountId)
  then Some ("Invalid account ID: " +:+ accountId)
  else
    match alias with
    | JString label =>
        if negb (Js.truthy (Js.trim label))
        then Some ("Invalid alias for account " +:+ accountId)
        else None
    | _ => Some ("Invalid alias for account " +:+ accountId)
    end.

(** The validation loop: the first message thrown, if any. *)
Fixpoint firstInvalidEntry (entries : list (string * json)) : option string :=
  match entries with
  | [] => None
  | entry :: rest =>
      match invalidEntry entry with
      | Some message => Some message
      | None => firstInvalidEntry rest
      end
  end.

(** The message of the [TypeError] that reading [importData.aliases] throws
    when [importData] is [null]. *)
Definition readOfNull : string :=
  "Cannot read properties of null (reading 'aliases')".

(** The mapping the handler takes from the parsed document: the member
    [aliases] of the export shape, or the document itself. *)
Definition chooseAliases (importData : json) : option json :=
  match Json.get importData "aliases" with
  | Some aliases =>
      if Json.truthy aliases && Json.typeofObject aliases then Some aliases
      else if Json.typeofObject importData then Some importData
      else None
  | None => if Json.typeofObject importData then Some importData else None
  end.

(** [handleImportAliases]; [data] is [request.data] and [parsed] the outcome
    of [JSON.parse(data)]. The result is the response and the storage
    afterwards. *)
Definition handleImportAliases (data : string) (parsed : result json)
    (st : storage) : result json * storage :=
  if negb (Js.truthy data) then (Error "Import data is required", st)
  else
    match parsed with
    | Error _ => (Error "Invalid JSON format", st)
    | Ok importData =>
        if Json.isNull importData then (Error readOfNull, st)
        else
          match chooseAliases importData with
          | None => (Error "Invalid data format", st)
          | Some aliases =>
              match firstInvalidEntry (Json.entries aliases) with
              | Some message => (Error message, st)
              | None => (Ok aliases, Some aliases)
              end
          end
    end.

End Background.

(** An entry an import may keep according to the handler of the background
    script: a twelve-digit key and a label that is a string with something
    other than white space in it. *)
Definition validEntry (entry : string * json) : Prop :=
  isAccountId entry.1 = true ∧
  ∃ label, entry.2 = JString label ∧ Js.trim label ≠ "".

(** ** The rest of the program *)

(** *** [extractAccountIdFromUrl] *)

Module Url.

(** [[\w-]] *)
Definition isWordOrHyphen (c : ascii) : bool :=
  let n := nat_of_ascii c in
  Js.isDigit c || bool_decide (65 ≤ n ≤ 90) || bool_decide (97 ≤ n ≤ 122) ||
  bool_decide (c = "_"%char) || bool_decide (c = "-"%char).

(** [[\w-]*], greedy: the longest run and the rest. *)
Fixpoint wordRun (s : string) : string * string :=
  match s with
  | "" => ("", "")
  | String c s' =>
      if isWordOrHyphen c
      then let '(w, r) := wordRun s' in (String c w, r)
      else ("", s)
  end.

(** [[\w-]+\.] at the head of [s]: what follows the dot. A shorter run is
    followed by a character of the run, never by the dot, so the greedy run
    is the only candidate. *)
Definition label (s : string) : option string :=
  match wordRun s with
  | (String _ _, String "." r) => Some r
  | _ => None
  end.

Definition consoleDomain : string := "console.aws.amazon.com".

(** [multiSessionPattern] anchored at the head of [s]: capture group 1. The
    optional group [(?:[\w-]+\.)?] is tried first and given up when the rest
    does not follow. *)
Definition multiSessionHere (s : string) : option string :=
  r ← stripPrefix "https://" s;
  '(accountId, r) ← Pattern.digits 12 r;
  r ← stripPrefix "-" r;
  r ← label r;
  match label r ≫= stripPrefix consoleDomain with
  | Some _ => Some accountId
  | None => _ ← stripPrefix consoleDomain r; Some accountId
  end.

(** [url.match(multiSessionPattern)]: group 1 of the leftmost match. *)
Fixpoint matchMultiSession (url : string) : option string :=
  match multiSessionHere url with
  | Some accountId => Some accountId
  | None =>
      match url with
      | "" => None
      | String _ url' => matchMultiSession url'
      end
  end.

End Url.

(** [AliasManager.extractAccountIdFromUrl(url)]; [None] is [null]. Group 1 is
    twelve digits, hence truthy. *)
Definition extractAccountIdFromUrl (url : string) : option string :=
  Url.matchMultiSession url.

(** *** The content script: where annotation applies *)

Module Content.

(** The condition under which [detectAndMarkPageType] sets [data-page] to
    [sessions-selector] on the body. *)
Definition detectAndMarkPageType (currentPath currentHost : string) : bool :=
  Js.includes currentPath "/sessions/selector" ||
  Js.includes currentHost "signin.aws.amazon.com".

Definition allowedPaths : list string :=
  [ "/console/home"; "/console/"; "/sessions/selector" ].

(** [shouldApplyAliases()] for [window.location.pathname] and [hostname]. *)
Definition shouldApplyAliases (currentPath currentHost : string) : bool :=
  let isAllowedPath := existsb (λ path, Js.includes currentPath path) allowedPaths in
  let isSigninDomain := Js.includes currentHost "signin.aws.amazon.com" in
  isAllowedPath || isSigninDomain.

(** [Object.keys(aliasMap)] *)
Definition keys (aliasMap : gmap string string) : list string :=
  (map_to_list aliasMap).*1.

(** [hasRegisteredAccountId] of [applyAliasesToNavigation]. *)
Definition hasRegisteredAccountId (text : string) (aliasMap : gmap string string) : bool :=
  existsb (λ accountId,
             let formattedId := formatAccountId accountId in
             Js.includes text accountId || Js.includes text formattedId)
          (keys aliasMap).

End Content.

(** *** The settings page: the identifier field *)

Module Popup.

(** [/^(\d{12}|\d{4}-\d{4}-\d{4})$/.test(accountId)] *)
Definition validateAccountIdFormat (accountId : string) : bool :=
  isAccountId accountId ||
  match Pattern.formatted accountId with
  | Some (_, "") => true
  | _ => false
  end.

(** [s.replace(/[^0-9-]/g, '')] *)
Fixpoint digitsAndHyphens (s : string) : string :=
  match s with
  | "" => ""
  | String c s' =>
      if Js.isDigit c || bool_decide (c = "-"%char)
      then String c (digitsAndHyphens s')
      else digitsAndHyphens s'
  end.

(** [/^\d{4,}$/.test(s)] *)
Fixpoint allDigits (s : string) : bool :=
  match s with
  | "" => true
  | String c s' => Js.isDigit c && allDigits s'
  end.

Definition atLeastFourDigits (s : string) : bool :=
  allDigits s && bool_decide (4 ≤ String.length s).

(** The grouping that [validateAccountId] builds from the digits typed. *)
Definition grouped (digits : string) : string :=
  let n := String.length digits in
  Js.slice 0 4 digits +:+
  (if bool_decide (8 ≤ n) then
     "-" +:+ Js.slice 4 8 digits +:+
     (if bool_decide (12 ≤ n) then "-" +:+ Js.slice 8 12 digits
      else if bool_decide (8 < n) then "-" +:+ Js.drop 8 digits
      else "")
   else if bool_decide (4 < n) then "-" +:+ Js.drop 4 digits
   else "").

(** [validateAccountId(event)]: [input.value] afterwards, [value] being
    [input.value] before. *)
Definition validateAccountId (value : string) : string :=
  let cleanValue := digitsAndHyphens value in
  let digits := normalizeAccountId cleanValue in
  if atLeastFourDigits digits && bool_decide (4 ≤ String.length digits) &&
     bool_decide (grouped digits ≠ value)
  then grouped digits
  else if bool_decide (cleanValue ≠ value) then cleanValue
  else value.

End Popup.

(** *** The store: single entries

    [getAlias], [setAlias] and [removeAlias] of [StorageManager] read and
    write one property of the stored object. They are modelled where the
    stored value is a plain object (or absent) and the key is twelve digits,
    as the parameter is documented: such a key is no array index and no name
    of [Object.prototype], so a new property goes last and a lookup sees own
    properties only. Elsewhere the model is silent ([None]). *)

Module Aliases.

(** [aliases[key] = value] *)
Fixpoint setProperty (key : string) (value : json) (members : list (string * json))
  : list (string * json) :=
  match members with
  | [] => [(key, value)]
  | (k, v) :: rest =>
      if decide (k = key) then (k, value) :: rest
      else (k, v) :: setProperty key value rest
  end.

(** [delete aliases[key]] *)
Definition deleteProperty (key : string) (members : list (string * json))
  : list (string * json) :=
  filter (λ member, member.1 ≠ key) members.

(** [getAlias(accountId)]: [aliases[accountId] || null]. *)
Definition getAlias (accountId : string) (st : storage) : option json :=
  if isAccountId accountId then
    match StorageManager.getAllAliases st with
    | JObject members =>
        match Json.lookup accountId members with
        | Some v => Some (if Json.truthy v then v else JNull)
        | None => Some JNull
        end
    | _ => None
    end
  else None.

(** [setAlias(accountId, alias)]: the storage afterwards. *)
Definition setAlias (accountId alias : string) (st : storage) : option storage :=
  if isAccountId accountId then
    match StorageManager.getAllAliases st with
    | JObject members =>
        Some (Some (JObject (setProperty accountId (JString alias) members)))
    | _ => None
    end
  else None.

(** [removeAlias(accountId)]: the storage afterwards. *)
Definition removeAlias (accountId : string) (st : storage) : option storage :=
  if isAccountId accountId then
    match StorageManager.getAllAliases st with
    | JObject members => Some (Some (JObject (deleteProperty accountId members)))
    | _ => None
    end
  else None.

(** [clearAllAliases()]: the key is removed from the storage. *)
Definition clearAllAliases (st : storage) : storage := None.

End Aliases.

(** A string with a code unit that is no white space. *)
Definition hasInk (s : string) : Prop :=
  ∃ pre c post, s = pre +:+ String c post ∧ Js.isWhiteSpace c = false.

(** * Properties *)

(** ** Strings *)

Section strings.
Implicit Types s t p : string.

Lemma string_app_nil_l s : "" +:+ s = s.
Proof. reflexivity. Qed.

Lemma string_app_cons c s t : String c s +:+ t = String c (s +:+ t).
Proof. reflexivity. Qed.

Lemma string_app_nil_r s : s +:+ "" = s.
Proof. induction s as [|c s IH]; [done | by rewrite string_app_cons, IH]. Qed.

Lemma string_app_assoc s t p : (s +:+ t) +:+ p = s +:+ t +:+ p.
Proof. induction s as [|c s IH]; [done | by rewrite !string_app_cons, IH]. Qed.

Lemma string_length_app s t :
  String.length (s +:+ t) = String.length s + String.length t.
Proof. induction s as [|c s IH]; [done | by rewrite string_app_cons; simpl; rewrite IH]. Qed.

Lemma startsWith_spec s p :
  Js.startsWith s p = true ↔ ∃ post, s = p +:+ post.
Proof.
  revert s. induction p as [|a p IH]; intros s; simpl.
  - split; [by exists s | done].
  - destruct s as [|b s].
    + split; [done | by intros [post ?]].
    + case_decide as Hab.
      * subst b. rewrite IH. split; intros [post Hpost]; exists post.
        -- by rewrite Hpost.
        -- rewrite string_app_cons in Hpost. by injection Hpost.
      * split; [done | intros [post Hpost]].
        rewrite string_app_cons in Hpost. congruence.
Qed.

(** [includes] finds exactly the substrings. *)
Lemma includes_spec s p :
  Js.includes s p = true ↔ ∃ pre post, s = pre +:+ p +:+ post.
Proof.
  induction s as [|c s IH]; simpl.
  - rewrite orb_false_r, startsWith_spec. split.
    + intros [post ->]. by exists "", post.
    + intros [[|a pre] [post Hs]]; [by exists post | done].
  - rewrite orb_true_iff, IH, startsWith_spec. split.
    + intros [[post Hs] | (pre & post & ->)].
      * by exists "", post.
      * by exists (String c pre), post.
    + intros [[|a pre] [post Hs]].
      * left. by exists post.
      * right. rewrite string_app_cons in Hs. injection Hs as -> ->. by exists pre, post.
Qed.

Lemma includes_app_l s t p :
  Js.includes t p = true → Js.includes (s +:+ t) p = true.
Proof.
  rewrite !includes_spec. intros (pre & post & ->).
  exists (s +:+ pre), post. by rewrite string_app_assoc.
Qed.

Lemma includes_app_r s t p :
  Js.includes s p = true → Js.includes (s +:+ t) p = true.
Proof.
  rewrite !includes_spec. intros (pre & post & ->).
  exists pre, (post +:+ t). by rewrite !string_app_assoc.
Qed.

Lemma includes_trans s t p :
  Js.includes s t = true → Js.includes t p = true → Js.includes s p = true.
Proof.
  rewrite !includes_spec. intros (pre & post & ->) (pre' & post' & ->).
  exists (pre +:+ pre'), (post' +:+ post). by rewrite !string_app_assoc.
Qed.

End strings.

(** ** The pattern *)

Section pattern.
Implicit Types s d r m pre post : string.

Lemma digits_app n s d r :
  Pattern.digits n s = Some (d, r) → s = d +:+ r ∧ String.length d = n.
Proof.
  revert s d r. induction n as [|n IH]; intros s d r; simpl.
  - by intros [= <- <-].
  - destruct s as [|c s]; [done |].
    destruct (Js.isDigit c); [| done].
    destruct (Pattern.digits n s) as [[d' r']|] eqn:Hd; [| done].
    simpl. intros [= <- <-]. destruct (IH _ _ _ Hd) as [-> <-]. done.
Qed.

Local Arguments Pattern.digits : simpl never.
Local Arguments Pattern.hyphen : simpl never.

Lemma hyphen_app s d r :
  Pattern.hyphen s = Some (d, r) → d = "-" ∧ s = d +:+ r.
Proof.
  destruct s as [|c s]; [done |]. unfold Pattern.hyphen.
  destruct c as [[] [] [] [] [] [] [] []]; try done.
  by intros [= <- <-].
Qed.

Lemma formatted_app s m r :
  Pattern.formatted s = Some (m, r) → s = m +:+ r ∧ String.length m = 14.
Proof.
  unfold Pattern.formatted. intros H.
  destruct (Pattern.digits 4 s) as [[a r1]|] eqn:H1; simpl in H; [| done].
  destruct (Pattern.hyphen r1) as [[h1 r2]|] eqn:H2; simpl in H; [| done].
  destruct (Pattern.digits 4 r2) as [[b r3]|] eqn:H3; simpl in H; [| done].
  destruct (Pattern.hyphen r3) as [[h2 r4]|] eqn:H4; simpl in H; [| done].
  destruct (Pattern.digits 4 r4) as [[c r5]|] eqn:H5; simpl in H; [| done].
  injection H as <- <-.
  apply digits_app in H1 as [-> L1], H3 as [-> L3], H5 as [-> L5].
  apply hyphen_app in H2 as [-> ->], H4 as [-> ->].
  split; [by rewrite !string_app_assoc |].
  rewrite !string_length_app, L1, L3, L5. done.
Qed.

(** A match at the head is a prefix of twelve or fourteen code units. *)
Lemma matchHere_app s m r :
  Pattern.matchHere s = Some (m, r) → s = m +:+ r ∧ 12 ≤ String.length m.
Proof.
  unfold Pattern.matchHere.
  destruct (Pattern.formatted s) as [[m' r']|] eqn:Hf.
  - intros [= <- <-]. apply formatted_app in Hf as [-> ->]. split; [done | lia].
  - intros [-> ->]%digits_app. done.
Qed.

(** [search] splits the text around a match that is not empty. *)
Lemma search_app s pre m post :
  Pattern.search s = Some (pre, m, post) →
  s = pre +:+ m +:+ post ∧ 12 ≤ String.length m.
Proof.
  revert pre. induction s as [|c s IH]; intros pre; simpl.
  - intros H. by vm_compute in H.
  - destruct (Pattern.matchHere (String c s)) as [[m' r']|] eqn:Hm.
    + intros [= <- <- <-]. by apply matchHere_app in Hm.
    + destruct (Pattern.search s) as [[[pre' m'] post']|] eqn:Hs; [| done].
      simpl. intros [= <- <- <-]. destruct (IH _ eq_refl) as [-> ?]. done.
Qed.

Lemma search_shorter s pre m post :
  Pattern.search s = Some (pre, m, post) →
  String.length post < String.length s.
Proof.
  intros [-> ?]%search_app. rewrite !string_length_app. lia.
Qed.

(** The rounds given to the replace loop are enough: more change nothing. *)
Lemma replaceLoop_fuel f fuel fuel' s :
  String.length s ≤ fuel → String.length s ≤ fuel' →
  AccountIdPattern.replaceLoop fuel f s = AccountIdPattern.replaceLoop fuel' f s.
Proof.
  revert fuel' s. induction fuel as [|fuel IH]; intros fuel' s Hf Hf'.
  - destruct s; [| simpl in Hf; lia]. by destruct fuel'.
  - destruct fuel' as [|fuel'].
    + destruct s; [done | simpl in Hf'; lia].
    + simpl. destruct (Pattern.search s) as [[[pre m] post]|] eqn:Hs; [| done].
      apply search_shorter in Hs. f_equal. f_equal. apply IH; lia.
Qed.

(** The equation of [s.replace(ACCOUNT_ID_PATTERN, f)]. *)
Lemma replace_unfold f s lastIndex :
  (AccountIdPattern.replace s f lastIndex).1 =
  match Pattern.search s with
  | Some (pre, m, post) =>
      pre +:+ f m +:+ (AccountIdPattern.replace post f 0).1
  | None => s
  end.
Proof.
  unfold AccountIdPattern.replace. simpl.
  destruct s as [|c s]; [done |].
  cbn [String.length AccountIdPattern.replaceLoop].
  destruct (Pattern.search (String c s)) as [[[pre m] post]|] eqn:Hs; [| done].
  apply search_shorter in Hs. simpl in Hs.
  f_equal. f_equal. apply replaceLoop_fuel; lia.
Qed.

End pattern.

(** ** Identifier codec *)

Section codec.
Implicit Types s d r id : string.

Lemma normalizeAccountId_app s r :
  normalizeAccountId (s +:+ r) = normalizeAccountId s +:+ normalizeAccountId r.
Proof.
  induction s as [|c s IH]; [done |].
  rewrite string_app_cons. simpl. case_decide; [done |]. by rewrite string_app_cons, IH.
Qed.

Lemma isDigit_not_hyphen c : Js.isDigit c = true → c ≠ "-"%char.
Proof. by intros Hc ->. Qed.

(** A run of digits has no hyphen to lose. *)
Lemma normalizeAccountId_digits n s d r :
  Pattern.digits n s = Some (d, r) → normalizeAccountId d = d.
Proof.
  revert s d r. induction n as [|n IH]; intros s d r; simpl.
  - by intros [= <- _].
  - destruct s as [|c s]; [done |].
    destruct (Js.isDigit c) eqn:Hc; [| done].
    destruct (Pattern.digits n s) as [[d' r']|] eqn:Hd; [| done].
    simpl. intros [= <- _]. simpl.
    rewrite decide_False by by apply isDigit_not_hyphen.
    by rewrite (IH _ _ _ Hd).
Qed.

Lemma isAccountId_digits id :
  isAccountId id = true → Pattern.digits 12 id = Some (id, "").
Proof.
  unfold isAccountId.
  destruct (Pattern.digits 12 id) as [[d [|??]]|] eqn:Hd; [| done..].
  intros _. apply digits_app in Hd as Happ. destruct Happ as [-> _].
  by rewrite string_app_nil_r in *.
Qed.

Lemma isAccountId_length id : isAccountId id = true → String.length id = 12.
Proof. intros H%isAccountId_digits. by apply digits_app in H as [_ ?]. Qed.

(** The three groups of the display form make up the identifier. *)
Lemma slices_app id :
  String.length id = 12 →
  Js.slice 0 4 id +:+ Js.slice 4 8 id +:+ Js.slice 8 12 id = id.
Proof.
  intros Hlen. do 13 (destruct id as [|? id]; [done |]). done.
Qed.

(** The display form of a canonical identifier. *)
Lemma formatAccountId_canonical id :
  isAccountId id = true →
  formatAccountId id =
    Js.slice 0 4 id +:+ "-" +:+ Js.slice 4 8 id +:+ "-" +:+ Js.slice 8 12 id.
Proof.
  intros Hid. unfold formatAccountId.
  by rewrite Hid, bool_decide_eq_true_2 by by apply isAccountId_length.
Qed.

(** [format] is the identity on any string not of the twelve-digit shape. *)
Lemma formatAccountId_other id :
  isAccountId id = false → formatAccountId id = id.
Proof. intros Hid. unfold formatAccountId. by rewrite Hid, andb_false_r. Qed.

End codec.

(** C6. For every canonical 12-digit identifier [id] (one that matches
    [^\d{12}$]), [normalizeAccountId (formatAccountId id) = id]: [format]
    writes the 4-4-4 hyphen-grouped form and [normalize] takes the hyphens
    out again. *)
Theorem normalize_format_roundtrip (id : string) :
  isAccountId id = true →
  formatAccountId id =
    Js.slice 0 4 id +:+ "-" +:+ Js.slice 4 8 id +:+ "-" +:+ Js.slice 8 12 id ∧
  normalizeAccountId (formatAccountId id) = id.
Proof.
  intros Hid. split; [by apply formatAccountId_canonical |].
  rewrite formatAccountId_canonical by done.
  rewrite !normalizeAccountId_app.
  change (normalizeAccountId "-") with "". rewrite !string_app_nil_l.
  rewrite <- !normalizeAccountId_app, slices_app by by apply isAccountId_length.
  by apply (normalizeAccountId_digits 12 id id ""), isAccountId_digits.
Qed.

Lemma normalize_format_roundtrip_witness :
  isAccountId "123456789012" = true ∧
  formatAccountId "123456789012" = "1234-5678-9012" ∧
  normalizeAccountId (formatAccountId "123456789012") = "123456789012".
Proof.
  split; [reflexivity |].
  apply (normalize_format_roundtrip "123456789012"). reflexivity.
Defined.

(** ** Text rewriting *)

Section rewriting.
Variable aliasMap : gmap string string.
Implicit Types s text alias : string.

Lemma elem_of_values k alias :
  aliasMap !! k = Some alias → alias ∈ values aliasMap.
Proof.
  intros Hk. unfold values. apply list_elem_of_fmap.
  exists (k, alias). split; [done |]. by apply elem_of_map_to_list.
Qed.

(** What the callback returns: the occurrence alone, or the occurrence
    followed by a label of the mapping in parentheses. *)
Lemma withAlias_cases accountId :
  withAlias aliasMap accountId = accountId ∨
  ∃ alias, alias ∈ values aliasMap ∧
           withAlias aliasMap accountId = accountId +:+ " (" +:+ alias +:+ ")".
Proof.
  unfold withAlias.
  destruct (aliasMap !! normalizeAccountId accountId) as [alias|] eqn:Hk;
    [| by left].
  destruct (Js.truthy alias); [| by left].
  right. exists alias. split; [by eapply elem_of_values | done].
Qed.

(** A text in which the label stands in parentheses passes the guard. *)
Lemma hasAlreadyProcessed_intro text alias :
  alias ∈ values aliasMap →
  Js.includes text ("(" +:+ alias +:+ ")") = true →
  hasAlreadyProcessed text aliasMap = true.
Proof.
  intros Hin Hinc. unfold hasAlreadyProcessed.
  rewrite !andb_true_iff. split; [split |].
  - apply (includes_trans _ _ _ Hinc), includes_spec.
    by exists "", (alias +:+ ")").
  - apply (includes_trans _ _ _ Hinc), includes_spec.
    exists ("(" +:+ alias), "". by rewrite string_app_nil_r, !string_app_assoc.
  - apply existsb_exists. exists alias.
    split; [by apply list_elem_of_In | done].
Qed.

(** The replace loop gives the text back as it was, or a text in which a
    label of the mapping stands in parentheses. *)
Lemma replaceLoop_cases fuel s :
  AccountIdPattern.replaceLoop fuel (withAlias aliasMap) s = s ∨
  ∃ alias, alias ∈ values aliasMap ∧
    Js.includes (AccountIdPattern.replaceLoop fuel (withAlias aliasMap) s)
                ("(" +:+ alias +:+ ")") = true.
Proof.
  revert s. induction fuel as [|fuel IH]; intros s; simpl; [by left |].
  destruct (Pattern.search s) as [[[pre m] post]|] eqn:Hs; [| by left].
  apply search_app in Hs as [-> _].
  destruct (withAlias_cases m) as [-> | (alias & Hin & ->)].
  - destruct (IH post) as [-> | (alias & Hin & Hinc)]; [by left |].
    right. exists alias. split; [done |].
    by apply includes_app_l, includes_app_l.
  - right. exists alias. split; [done |].
    apply includes_app_l, includes_app_r, includes_app_l, includes_spec.
    exists " ", "". by rewrite string_app_nil_r.
Qed.

End rewriting.

(** C2. [applyAliasesToText] is idempotent: for every text and every mapping,
    rewriting the rewritten text gives the rewritten text, whatever
    [lastIndex] the shared pattern holds before either call. *)
Theorem applyAliasesToText_idempotent
    (text : string) (aliasMap : gmap string string) (lastIndex lastIndex' : nat) :
  (applyAliasesToText (applyAliasesToText text aliasMap lastIndex).1
                      aliasMap lastIndex').1
  = (applyAliasesToText text aliasMap lastIndex).1.
Proof.
  unfold applyAliasesToText at 2 3.
  destruct (hasAlreadyProcessed text aliasMap) eqn:Hguard.
  - simpl. unfold applyAliasesToText. by rewrite Hguard.
  - unfold AccountIdPattern.replace. simpl.
    destruct (replaceLoop_cases aliasMap (String.length text) text)
      as [Hsame | (alias & Hin & Hinc)].
    + rewrite Hsame. unfold applyAliasesToText. rewrite Hguard.
      unfold AccountIdPattern.replace. simpl. exact Hsame.
    + unfold applyAliasesToText.
      by rewrite (hasAlreadyProcessed_intro _ _ _ Hin Hinc).
Qed.

(** C10. The shared pattern asks for no boundary around the twelve digits:
    with the mapping [{ "123456789012": "X" }] the text ["1234567890123"] is
    rewritten to ["123456789012 (X)3"], the label landing inside the
    thirteen-digit number. *)
Theorem applyAliasesToText_inside_longer_run (lastIndex : nat) :
  (applyAliasesToText "1234567890123" {[ "123456789012" := "X" ]} lastIndex).1
  = "123456789012 (X)3".
Proof. reflexivity. Qed.

(** ** The markup written and read back *)

Section markup.
Implicit Types s d r p label rest : string.

Lemma untilParen_app s label r :
  untilParen s = (label, r) → s = label +:+ r.
Proof.
  revert label r. induction s as [|c s IH]; intros label r; simpl.
  - by intros [= <- <-].
  - case_decide; [by intros [= <- <-] |].
    destruct (untilParen s) as [a r'] eqn:Hs. intros [= <- <-].
    by rewrite string_app_cons, (IH a r' eq_refl).
Qed.

Lemma labelledHere_shorter s id label rest :
  labelledHere s = Some (id, label, rest) →
  String.length rest < String.length s.
Proof.
  unfold labelledHere.
  destruct (Pattern.matchHere s) as [[id' r]|] eqn:Hm; [| done]. simpl.
  apply matchHere_app in Hm as [-> Hlen]. intros H.
  rewrite string_length_app.
  destruct r as [|c1 [|c2 r']]; try by repeat case_match.
  assert (String.length rest < String.length r') as Hr'; [| simpl; lia].
  destruct (untilParen r') as [label' r''] eqn:Hu.
  apply untilParen_app in Hu as ->.
  repeat case_match; simplify_eq.
  rewrite string_length_app. simpl. lia.
Qed.

(** The rounds given to the wrapping loop are enough. *)
Lemma wrapLoop_fuel fuel fuel' s :
  String.length s ≤ fuel → String.length s ≤ fuel' →
  wrapLoop fuel s = wrapLoop fuel' s.
Proof.
  revert fuel' s. induction fuel as [|fuel IH]; intros fuel' s Hf Hf'.
  - destruct s; [| simpl in Hf; lia]. by destruct fuel'.
  - destruct fuel' as [|fuel'].
    + destruct s; [done | simpl in Hf'; lia].
    + simpl. destruct (labelledHere s) as [[[id label] rest]|] eqn:Hl.
      * apply labelledHere_shorter in Hl. do 7 f_equal. apply IH; lia.
      * destruct s as [|c s]; [done |]. simpl in *. f_equal. apply IH; lia.
Qed.

Lemma charData_app s d r : charData s = Some (d, r) → s = d +:+ r.
Proof.
  revert d r. induction s as [|c s IH]; intros d r; simpl.
  - by intros [= <- <-].
  - case_decide; [by intros [= <- <-] |].
    destruct (isMarkupFree c); [| done].
    destruct (charData s) as [[d' r']|] eqn:Hs; [| done]. simpl.
    intros [= <- <-]. by rewrite string_app_cons, (IH d' r' eq_refl).
Qed.

Lemma stripPrefix_app p s r : stripPrefix p s = Some r → s = p +:+ r.
Proof.
  revert s. induction p as [|a p IH]; intros s; simpl.
  - by intros [= <-].
  - destruct s as [|b s]; [done |]. case_decide; [| done].
    subst b. intros H%IH. by rewrite string_app_cons, H.
Qed.

(** The rounds given to the fragment parser are enough: where it answers
    [None], the markup is outside the model. *)
Lemma parseLoop_fuel fuel fuel' s :
  String.length s < fuel → String.length s < fuel' →
  parseLoop fuel s = parseLoop fuel' s.
Proof.
  assert (0 < String.length spanOpen) as Hopen by (vm_compute; lia).
  revert fuel' s. induction fuel as [|fuel IH]; intros fuel' s Hf Hf'; [lia |].
  destruct fuel' as [|fuel']; [lia |]. cbn [parseLoop].
  destruct (charData s) as [[data r]|] eqn:Hd; [| done]. cbn [mbind option_bind].
  apply charData_app in Hd as ->. rewrite string_length_app in Hf, Hf'.
  destruct r as [|c r]; [done |].
  destruct (stripPrefix spanOpen (String c r)) as [r1|] eqn:H1; [| done].
  cbn [mbind option_bind].
  apply stripPrefix_app in H1. rewrite H1 in Hf, Hf'.
  rewrite string_length_app in Hf, Hf'.
  destruct (charData r1) as [[inner r2]|] eqn:H2; [| done].
  cbn [mbind option_bind].
  apply charData_app in H2 as ->. rewrite string_length_app in Hf, Hf'.
  destruct (stripPrefix spanClose r2) as [r3|] eqn:H3; [| done].
  cbn [mbind option_bind].
  apply stripPrefix_app in H3 as ->. rewrite string_length_app in Hf, Hf'.
  rewrite (IH fuel' r3); [done | lia ..].
Qed.

End markup.

(** ** Scope classifier and annotator *)

Section annotator.
Implicit Types (ancestors : list element) (e : element) (cs : list node).
Implicit Types (aliasMap : gmap string string) (lastIndex : nat).

(** A text that holds an ARN of either partition excludes its element. *)
Lemma isExcludedElement_arn ancestors e cs :
  Js.includes (textOf cs) "arn:aws:" = true →
  isExcludedElement ancestors e cs = true.
Proof.
  intros Harn. unfold isExcludedElement. rewrite Harn.
  by repeat case_match.
Qed.

Lemma applyAliasToElement_excluded_noop ancestors e cs aliasMap lastIndex :
  isExcludedElement ancestors e cs = true →
  applyAliasToElement ancestors e cs aliasMap lastIndex
  = (Some (Element e cs), lastIndex).
Proof. intros Hex. unfold applyAliasToElement. by rewrite Hex. Qed.

Lemma applyAliasToElement_marked_noop ancestors e cs aliasMap lastIndex :
  aliasApplied e = true →
  applyAliasToElement ancestors e cs aliasMap lastIndex
  = (Some (Element e cs), lastIndex).
Proof.
  intros Hmark. unfold applyAliasToElement. rewrite Hmark.
  by destruct (isExcludedElement ancestors e cs).
Qed.

Lemma aliasApplied_setAliasApplied e : aliasApplied (setAliasApplied e) = true.
Proof.
  unfold aliasApplied, setAliasApplied. simpl.
  by rewrite lookup_insert_eq, bool_decide_eq_true_2.
Qed.

(** Whatever [applyAliasToElement] returns is the element it was given,
    untouched, or an element that carries the mark. *)
Lemma applyAliasToElement_result ancestors e cs aliasMap lastIndex n' lastIndex' :
  applyAliasToElement ancestors e cs aliasMap lastIndex = (Some n', lastIndex') →
  (n' = Element e cs ∧ lastIndex' = lastIndex ∧
   (isExcludedElement ancestors e cs = true ∨ aliasApplied e = true)) ∨
  (∃ cs', n' = Element (setAliasApplied e) cs').
Proof.
  unfold applyAliasToElement.
  destruct (isExcludedElement ancestors e cs) eqn:Hex.
  { intros [= <- <-]. left. auto. }
  destruct (aliasApplied e) eqn:Hmark.
  { intros [= <- <-]. left. auto. }
  destruct (querySelectorFinds ALIAS_SPAN cs).
  { intros [= <- <-]. right. by exists cs. }
  unfold bind, ret.
  destruct (walk ancestors false (Element e cs) lastIndex) as [accepted l1].
  destruct (forEach _ _ l1) as [fragments l2].
  intros [= Hn <-]. right.
  destruct (mapM id fragments) as [fs|]; [| done].
  injection Hn as <-. by eexists.
Qed.

(** Induction on the document tree. *)
Lemma node_ind' (P : node → Prop) :
  (∀ v, P (Text v)) →
  (∀ e cs, Forall P cs → P (Element e cs)) →
  ∀ n, P n.
Proof.
  intros HText HElement. fix IH 1. intros [v|e cs]; [apply HText |].
  apply HElement. induction cs as [|c cs IHcs]; constructor; [apply IH | done].
Qed.

Lemma forEach_length {A B} (f : A → RegExp B) (l : list A) lastIndex :
  length (forEach f l lastIndex).1 = length l.
Proof.
  revert lastIndex. induction l as [|a l IH]; intros lastIndex; [done |].
  cbn [forEach]. unfold bind, ret. fold (forEach f).
  destruct (f a lastIndex) as [b l1]. specialize (IH l1).
  destruct (forEach f l l1) as [bs l2]. simpl in *. by rewrite IH.
Qed.

(** The tree walker puts its filter to every text node once: it gives as many
    answers as there are text nodes. *)
Lemma walk_length n : ∀ ancestors parentExcluded lastIndex,
  length (walk ancestors parentExcluded n lastIndex).1 = length (textNodes n).
Proof.
  induction n as [v|e cs IH] using node_ind';
    intros ancestors parentExcluded lastIndex.
  - simpl. unfold bind, ret. by destruct (acceptNode _ _ _).
  - cbn [walk textNodes]. unfold bind, ret.
    generalize (e :: ancestors) (isExcludedElement ancestors e cs).
    intros ancestors' excluded. revert lastIndex.
    induction IH as [|c cs Hc _ IHcs]; intros lastIndex; [done |].
    cbn [forEach]. unfold bind, ret. fold (forEach (walk ancestors' excluded)).
    specialize (Hc ancestors' excluded lastIndex).
    destruct (walk ancestors' excluded c lastIndex) as [b l1].
    specialize (IHcs l1).
    destruct (forEach (walk ancestors' excluded) cs l1) as [bs l2].
    simpl in *. rewrite !length_app. by rewrite Hc, IHcs.
Qed.

(** Splicing takes one fragment for each text node, in order. *)
Lemma splice_rest n : ∀ fs,
  length (textNodes n) ≤ length fs →
  (splice n fs).2 = drop (length (textNodes n)) fs.
Proof.
  induction n as [v|e cs IH] using node_ind'; intros fs Hlen.
  - destruct fs as [|f fs]; [simpl in Hlen; lia | done].
  - cbn [splice textNodes] in *.
    assert ((spliceEach splice cs fs).2
            = drop (length (concat (map textNodes cs))) fs) as Hrest.
    { revert fs Hlen.
      induction IH as [|c cs Hc _ IHcs]; intros fs Hlen; [done |].
      simpl in Hlen. rewrite length_app in Hlen.
      cbn [spliceEach]. fold (spliceEach splice).
      specialize (Hc fs ltac:(lia)).
      destruct (splice c fs) as [c' fs1]. simpl in Hc. subst fs1.
      specialize (IHcs (drop (length (textNodes c)) fs)).
      rewrite length_drop in IHcs. specialize (IHcs ltac:(lia)).
      destruct (spliceEach splice cs _) as [cs' fs2]. simpl in *. subst fs2.
      by rewrite length_app, drop_drop. }
    by destruct (spliceEach splice cs fs).
Qed.

End annotator.

(** C3. For every element that [isExcludedElement] classifies as excluded, and
    so for every element whose text content holds the ARN
    ["arn:aws:iam::123456789012:role/x"], [applyAliasToElement] returns the
    element as it was, for every mapping: the text of the subtree is
    byte-identical, and the shared pattern is not touched either. *)
Theorem applyAliasToElement_excluded
    (ancestors : list element) (e : element) (cs : list node)
    (aliasMap : gmap string string) (lastIndex : nat) :
  isExcludedElement ancestors e cs = true ∨
  Js.includes (textContent (Element e cs)) "arn:aws:iam::123456789012:role/x" = true →
  applyAliasToElement ancestors e cs aliasMap lastIndex
  = (Some (Element e cs), lastIndex).
Proof.
  intros [Hex | Harn]; apply applyAliasToElement_excluded_noop; [done |].
  apply isExcludedElement_arn, (includes_trans _ _ _ Harn). reflexivity.
Qed.

Lemma applyAliasToElement_excluded_witness :
  let e := mkElement "td" ∅ in
  let cs := [Text "arn:aws:iam::123456789012:role/x"] in
  let aliasMap : gmap string string := {[ "123456789012" := "Prod" ]} in
  isExcludedElement [] e cs = true ∧
  applyAliasToElement [] e cs aliasMap 0 = (Some (Element e cs), 0).
Proof.
  split; [reflexivity |].
  apply (applyAliasToElement_excluded [] (mkElement "td" ∅)
           [Text "arn:aws:iam::123456789012:role/x"]).
  right. reflexivity.
Defined.

(** C5. An element whose mark is set is left as it is by
    [applyAliasToElement], for every mapping; and whatever
    [applyAliasToElement] returns, applying it again, with any mapping and
    any state of the shared pattern, changes nothing: until the mark is
    removed the text below an element is rewritten at most once. *)
Theorem applyAliasToElement_at_most_once
    (ancestors : list element) (e : element) (cs : list node)
    (aliasMap : gmap string string) (lastIndex : nat) :
  (aliasApplied e = true →
   applyAliasToElement ancestors e cs aliasMap lastIndex
   = (Some (Element e cs), lastIndex)) ∧
  (∀ n' lastIndex',
     applyAliasToElement ancestors e cs aliasMap lastIndex = (Some n', lastIndex') →
     ∃ e' cs', n' = Element e' cs' ∧
       ∀ aliasMap' lastIndex'',
         applyAliasToElement ancestors e' cs' aliasMap' lastIndex''
         = (Some n', lastIndex'')).
Proof.
  split; [apply applyAliasToElement_marked_noop |].
  intros n' lastIndex' Hrun.
  apply applyAliasToElement_result in Hrun as [(-> & _ & Hwhy) | [cs' ->]].
  - exists e, cs. split; [done |]. intros aliasMap' lastIndex''.
    destruct Hwhy; [by apply applyAliasToElement_excluded_noop
                   | by apply applyAliasToElement_marked_noop].
  - exists (setAliasApplied e), cs'. split; [done |]. intros aliasMap' lastIndex''.
    apply applyAliasToElement_marked_noop, aliasApplied_setAliasApplied.
Qed.

Lemma applyAliasToElement_at_most_once_witness :
  let e := mkElement "div" {[ "data-alias-applied" := "true" ]} in
  let cs := [Text "Account: 1234-5678-9012"] in
  let aliasMap : gmap string string := {[ "123456789012" := "Prod" ]} in
  aliasApplied e = true ∧
  applyAliasToElement [] e cs aliasMap 0 = (Some (Element e cs), 0).
Proof.
  split; [reflexivity |].
  apply (applyAliasToElement_at_most_once []
           (mkElement "div" {[ "data-alias-applied" := "true" ]})
           [Text "Account: 1234-5678-9012"] {[ "123456789012" := "Prod" ]} 0).
  reflexivity.
Defined.

(** A scan of the shared pattern that starts behind the end of the text finds
    nothing and rewinds the pattern. *)
Lemma test_behind_end (s : string) (lastIndex : nat) :
  String.length s < lastIndex → AccountIdPattern.test s lastIndex = (false, 0).
Proof.
  intros Hlt. unfold AccountIdPattern.test, AccountIdPattern.exec, bind, ret.
  by rewrite decide_True.
Qed.

(** C4. End to end, with the mapping [{ "123456789012": "Prod" }] and an
    element that is neither excluded nor marked and whose only child is the
    text ["Account: 1234-5678-9012"]: what [applyAliasToElement] makes of it
    depends on where earlier calls left the shared pattern. Only with
    [lastIndex] at most 9, where the occurrence starts, does the element come
    out with the text content ["Account: 1234-5678-9012 (Prod)"], the hyphens
    kept, a span of class [aws-custom-alias] around ["(Prod)"] and the mark
    set. With any other [lastIndex] the filter of the tree walker misses the
    identifier: the element is marked and its text stays as it was. That is
    the case in the loop body of [applyAliasesToPage] and of
    [applyAliasesToNavigation], even with a pattern never used before: their
    own test of the text content leaves [lastIndex] at 23, so there the
    element is never annotated. *)
Theorem annotate_end_to_end_only_from_fresh_scan
    (ancestors : list element) (e : element) (lastIndex : nat) :
  isExcludedElement ancestors e [Text "Account: 1234-5678-9012"] = false →
  aliasApplied e = false →
  let aliasMap : gmap string string := {[ "123456789012" := "Prod" ]} in
  let before := [Text "Account: 1234-5678-9012"] in
  let annotated :=
    Element (setAliasApplied e)
      [ Text "Account: 1234-5678-9012 ";
        Element (mkElement "span" {[ "class" := "aws-custom-alias" ]})
                [Text "(Prod)"] ] in
  let onlyMarked := Element (setAliasApplied e) before in
  textContent annotated = "Account: 1234-5678-9012 (Prod)" ∧
  textContent onlyMarked = "Account: 1234-5678-9012" ∧
  aliasApplied (setAliasApplied e) = true ∧
  applyAliasToElement ancestors e before aliasMap lastIndex
  = (Some (if decide (lastIndex ≤ 9) then annotated else onlyMarked), 0) ∧
  AccountIdPattern.test (textOf before) 0 = (true, 23) ∧
  applyAliasesToPage_element ancestors e before aliasMap 0
  = (Some onlyMarked, 0).
Proof.
  intros Hex Hmark aliasMap before annotated onlyMarked.
  subst before.
  assert (∀ i, applyAliasToElement ancestors e
                 [Text "Account: 1234-5678-9012"] aliasMap i
               = (Some (if decide (i ≤ 9) then annotated else onlyMarked), 0))
    as Hdirect.
  { intros i. unfold applyAliasToElement. rewrite Hex, Hmark.
    change (querySelectorFinds ALIAS_SPAN [Text "Account: 1234-5678-9012"])
      with false.
    cbn [walk forEach bind ret]. rewrite Hex.
    do 24 (destruct i as [|i]; [reflexivity |]).
    rewrite decide_False by lia.
    unfold acceptNode.
    change (negb (Js.truthy (Js.trim "Account: 1234-5678-9012"))) with false.
    cbv iota. unfold bind. cbv beta.
    rewrite test_behind_end by (simpl; lia). reflexivity. }
  split; [reflexivity |]. split; [reflexivity |].
  split; [apply aliasApplied_setAliasApplied |].
  split; [apply Hdirect |]. split; [reflexivity |].
  unfold applyAliasesToPage_element, bind. rewrite Hmark.
  change (AccountIdPattern.test (textOf [Text "Account: 1234-5678-9012"]) 0)
    with (true, 23).
  cbn [negb]. apply Hdirect.
Qed.

Lemma annotate_end_to_end_only_from_fresh_scan_witness :
  let e := mkElement "div" ∅ in
  let before := [Text "Account: 1234-5678-9012"] in
  let aliasMap : gmap string string := {[ "123456789012" := "Prod" ]} in
  isExcludedElement [] e before = false ∧
  aliasApplied e = false ∧
  (applyAliasToElement [] e before aliasMap 0).1
  = Some (Element (mkElement "div" {[ "data-alias-applied" := "true" ]})
            [ Text "Account: 1234-5678-9012 ";
              Element (mkElement "span" {[ "class" := "aws-custom-alias" ]})
                      [Text "(Prod)"] ]) ∧
  (applyAliasesToPage_element [] e before aliasMap 0).1
  = Some (Element (mkElement "div" {[ "data-alias-applied" := "true" ]})
            [Text "Account: 1234-5678-9012"]).
Proof.
  split; [reflexivity |]. split; [reflexivity |].
  destruct (annotate_end_to_end_only_from_fresh_scan [] (mkElement "div" ∅) 0)
    as (_ & _ & _ & Hdirect & _ & Hpage); [reflexivity | reflexivity |].
  rewrite Hdirect, Hpage. split; reflexivity.
Defined.

(** ** The shared pattern between calls *)

(** From index 0 the test says whether the text holds an identifier. *)
Lemma test_fresh (s : string) :
  (AccountIdPattern.test s 0).1 = bool_decide (is_Some (Pattern.search s)).
Proof.
  unfold AccountIdPattern.test, AccountIdPattern.exec, bind, ret.
  rewrite decide_False by lia. change (Js.drop 0 s) with s.
  by destruct (Pattern.search s) as [[[pre m] post]|].
Qed.

Lemma drop_app_length (pre s : string) :
  Js.drop (String.length pre) (pre +:+ s) = s.
Proof. induction pre as [|c pre IH]; [done | by rewrite string_app_cons]. Qed.

(** After a successful test the next one resumes behind the match: it sees
    only what follows it. *)
Lemma test_after_match (s pre m post : string) :
  Pattern.search s = Some (pre, m, post) →
  AccountIdPattern.test s 0 = (true, String.length pre + String.length m) ∧
  (AccountIdPattern.test s (String.length pre + String.length m)).1
  = bool_decide (is_Some (Pattern.search post)).
Proof.
  intros Hs. split.
  - unfold AccountIdPattern.test, AccountIdPattern.exec, bind, ret.
    rewrite decide_False by lia. change (Js.drop 0 s) with s. by rewrite Hs.
  - apply search_app in Hs as [-> _].
    unfold AccountIdPattern.test, AccountIdPattern.exec, bind, ret.
    rewrite decide_False by (rewrite !string_length_app; lia).
    rewrite <- string_length_app, <- string_app_assoc, drop_app_length.
    by destruct (Pattern.search post) as [[[pre' m'] post']|].
Qed.

(** [replace] rewinds the pattern first, so it does not depend on what was
    left in it. *)
Lemma replace_restartable (s : string) (f : string → string) (lastIndex lastIndex' : nat) :
  AccountIdPattern.replace s f lastIndex = AccountIdPattern.replace s f lastIndex'.
Proof. reflexivity. Qed.

(** C7. Two successive calls of [ACCOUNT_ID_PATTERN.test] on the text
    ["123456789012"], the pattern being fresh before the first: the first
    finds the identifier and leaves [lastIndex] at 12, its end; the second
    starts there, finds nothing and answers [false]. The scan state is shared
    between the calls. *)
Theorem test_twice_differs :
  (first <~ AccountIdPattern.test "123456789012";;
   second <~ AccountIdPattern.test "123456789012";;
   ret (first, second)) 0 = ((true, false), 0) ∧
  AccountIdPattern.test "123456789012" 0 = (true, 12) ∧
  AccountIdPattern.test "123456789012" 12 = (false, 0).
Proof. repeat split. Qed.

(** What the shared state does to a pass over the page: the caller's test on
    the text content leaves the pattern at the end of the identifier, the
    filter of the tree walker then misses the identifier in the text node, and
    the element is marked with its text as it was. *)
Lemma applyAliasesToPage_element_misses :
  let e := mkElement "div" ∅ in
  applyAliasesToPage_element [] e [Text "Account: 1234-5678-9012"]
    {[ "123456789012" := "Prod" ]} 0
  = (Some (Element (setAliasApplied e) [Text "Account: 1234-5678-9012"]), 0).
Proof. reflexivity. Qed.

(** ** Clearing *)

Section clearing.
Implicit Types (e : element) (n : node) (cs before : list node).

Lemma matches_deleteAliasApplied_span e :
  matches (deleteAliasApplied e) ALIAS_SPAN = matches e ALIAS_SPAN.
Proof.
  unfold matches, ALIAS_SPAN, matchesSelector, classList, deleteAliasApplied.
  simpl. by rewrite lookup_delete_ne.
Qed.

Lemma matches_deleteAliasApplied_mark e :
  matches (deleteAliasApplied e) ALIAS_APPLIED = false.
Proof.
  unfold matches, ALIAS_APPLIED, matchesSelector, deleteAliasApplied. simpl.
  by rewrite lookup_delete_eq.
Qed.

(** Removing the marks leaves the spans where they are. *)
Lemma matchesWithin_removeMarks n :
  matchesWithin ALIAS_SPAN (removeMarks n) = matchesWithin ALIAS_SPAN n.
Proof.
  induction n as [v|e cs IH] using node_ind'; [done |].
  cbn [removeMarks matchesWithin]. f_equal.
  - destruct (matches e ALIAS_APPLIED); [| done].
    apply matches_deleteAliasApplied_span.
  - induction IH as [|c cs Hc _ IHcs]; [done |]. simpl. by rewrite Hc, IHcs.
Qed.

(** No mark is left on an element that went through [removeMarks], nor
    below it. *)
Lemma removeMarks_unmarked n :
  matchesWithin ALIAS_APPLIED (removeMarks n) = false.
Proof.
  induction n as [v|e cs IH] using node_ind'; [done |].
  cbn [removeMarks matchesWithin]. apply orb_false_iff. split.
  - destruct (matches e ALIAS_APPLIED) eqn:He; [| done].
    apply matches_deleteAliasApplied_mark.
  - induction IH as [|c cs Hc _ IHcs]; [done |]. simpl. by rewrite Hc, IHcs.
Qed.

Lemma stripPreviousSibling_spanless before :
  Forall (λ n, matchesWithin ALIAS_SPAN n = false) before →
  Forall (λ n, matchesWithin ALIAS_SPAN n = false) (stripPreviousSibling before).
Proof.
  intros [|[v|e cs] before' Hn Hbefore]; simpl; try by constructor.
Qed.

(** No span is left below an element that went through the first loop. *)
Lemma removeSpansEach_spanless cs : ∀ before,
  Forall (λ n, isAliasSpan n = false →
               matchesWithin ALIAS_SPAN (removeAliasSpans n) = false) cs →
  Forall (λ n, matchesWithin ALIAS_SPAN n = false) before →
  Forall (λ n, matchesWithin ALIAS_SPAN n = false)
         (removeSpansEach removeAliasSpans before cs).
Proof.
  induction cs as [|c cs IH]; intros before Hcs Hbefore; simpl.
  - by apply Forall_rev.
  - apply Forall_cons in Hcs as [Hc Hcs].
    destruct (isAliasSpan c) eqn:Hspan.
    + apply IH; [done |]. by apply stripPreviousSibling_spanless.
    + apply IH; [done |]. constructor; [by apply Hc | done].
Qed.

Lemma removeAliasSpans_spanless n :
  isAliasSpan n = false →
  matchesWithin ALIAS_SPAN (removeAliasSpans n) = false.
Proof.
  induction n as [v|e cs IH] using node_ind'; [done |].
  intros He. change (matches e ALIAS_SPAN = false) in He.
  cbn [removeAliasSpans matchesWithin]. rewrite He, orb_false_l.
  pose proof (removeSpansEach_spanless cs [] IH ltac:(constructor)) as Hall.
  induction Hall as [|c cs' Hc _ IHcs']; [done |]. simpl. by rewrite Hc.
Qed.

(** What clearing does achieve: below the element, no span of class
    [aws-custom-alias] and no mark is left. *)
Lemma clearAliasesFromElement_removes e cs :
  ∃ cs', clearAliasesFromElement e cs = Element e cs' ∧
    querySelectorFinds ALIAS_SPAN cs' = false ∧
    querySelectorFinds ALIAS_APPLIED cs' = false.
Proof.
  eexists. split; [reflexivity |]. unfold querySelectorFinds. split.
  - assert (Forall (λ n, matchesWithin ALIAS_SPAN n = false)
              (removeSpansEach removeAliasSpans [] cs)) as Hall.
    { apply removeSpansEach_spanless; [| constructor].
      apply Forall_forall. intros n _. apply removeAliasSpans_spanless. }
    induction Hall as [|c cs' Hc _ IHcs']; [done |]. simpl.
    by rewrite matchesWithin_removeMarks, Hc.
  - induction (removeSpansEach removeAliasSpans [] cs) as [|c cs' IHcs'];
      [done |].
    simpl. by rewrite removeMarks_unmarked.
Qed.

End clearing.

(** C1. Annotating the element [<div>Account: 1234-5678-9012</div>] with the
    mapping [{ "123456789012": "Prod" }] and clearing it afterwards does not
    give the text back: the span is removed, but the space written before it
    stays at the end of the text node, because the pattern that is to strip
    [" (Prod)"] from that node finds no parenthesis in it. *)
Theorem clear_after_annotate_keeps_space :
  let e := mkElement "div" ∅ in
  let before := [Text "Account: 1234-5678-9012"] in
  let aliasMap : gmap string string := {[ "123456789012" := "Prod" ]} in
  ∃ e' cs',
    (applyAliasToElement [] e before aliasMap 0).1 = Some (Element e' cs') ∧
    clearAliasesFromElement e' cs' = Element e' [Text "Account: 1234-5678-9012 "] ∧
    textContent (clearAliasesFromElement e' cs') = "Account: 1234-5678-9012 " ∧
    textContent (clearAliasesFromElement e' cs') ≠ textContent (Element e before).
Proof.
  eexists _, _. split; [reflexivity |]. split; [reflexivity |].
  split; [reflexivity | discriminate].
Qed.

(** The pattern of the clearing pass removes a trailing label only where the
    label is part of the text node itself. *)
Lemma stripTrailingAlias_examples :
  stripTrailingAlias "Account: 1234-5678-9012 (Prod)" = "Account: 1234-5678-9012" ∧
  stripTrailingAlias "Account: 1234-5678-9012 " = "Account: 1234-5678-9012 ".
Proof. split; reflexivity. Qed.

(** ** The store: export and import *)

Section store.
Implicit Types (st : storage) (doc aliases : json) (parsed : result json).

Lemma invalidEntry_None entry :
  Background.invalidEntry entry = None ↔ validEntry entry.
Proof.
  destruct entry as [accountId alias]. unfold Background.invalidEntry, validEntry.
  simpl. destruct (isAccountId accountId); simpl; [| by split; [| intros []]].
  destruct alias as [| | |label| |];
    try by split; [| intros [_ (? & ? & _)]].
  destruct (Js.trim label) eqn:Htrim; simpl.
  - split; [done | intros [_ (? & [= <-] & ?)]; congruence].
  - split; [| done]. intros _. split; [done |]. exists label.
    split; [done | congruence].
Qed.

Lemma firstInvalidEntry_None entries :
  Background.firstInvalidEntry entries = None ↔ Forall validEntry entries.
Proof.
  induction entries as [|entry entries IH]; simpl; [by split |].
  rewrite Forall_cons, <- IH, <- invalidEntry_None.
  destruct (Background.invalidEntry entry); [| tauto].
  split; [done | by intros [? _]].
Qed.

(** The handler of the background script keeps a mapping only when every
    entry is valid, and then the mapping replaces what was stored; when it
    answers with an error the storage is as it was. *)
Lemma handleImportAliases_validates data parsed st :
  match Background.handleImportAliases data parsed st with
  | (Ok aliases, st') =>
      st' = Some aliases ∧ Forall validEntry (Json.entries aliases)
  | (Error _, st') => st' = st
  end.
Proof.
  unfold Background.handleImportAliases.
  destruct (Js.truthy data); simpl; [| done].
  destruct parsed as [importData|]; [| done].
  destruct (Json.isNull importData); [done |].
  destruct (Background.chooseAliases importData) as [aliases|]; [| done].
  destruct (Background.firstInvalidEntry (Json.entries aliases)) eqn:Hv;
    [done |].
  by apply firstInvalidEntry_None in Hv.
Qed.

(** It takes the export shape as well as a bare mapping. *)
Lemma handleImportAliases_shapes st :
  let aliases := JObject [ ("123456789012", JString "Prod") ] in
  let exported := JObject [ ("version", JString "1.0.0");
                            ("exportedAt", JString "2024-01-01T00:00:00.000Z");
                            ("aliases", aliases) ] in
  Background.handleImportAliases "{...}" (Ok exported) st = (Ok aliases, Some aliases) ∧
  Background.handleImportAliases "{...}" (Ok aliases) st = (Ok aliases, Some aliases).
Proof. split; reflexivity. Qed.

(** The handler of the background script answers with the export shape. *)
Lemma handleExportAliases_shape now st :
  ∃ doc, Background.handleExportAliases now st = Ok doc ∧
    doc = JObject [ ("version", JString "1.0.0");
                    ("exportedAt", JString now);
                    ("aliases", StorageManager.getAllAliases st) ].
Proof. eexists. split; reflexivity. Qed.

(** [StorageManager.importAliases] leaves the storage alone when it fails
    and replaces it when it succeeds, the keys then being valid. *)
Lemma importAliases_keys parsed st :
  match StorageManager.importAliases parsed st with
  | (Ok _, st') =>
      ∃ aliases, parsed = Ok aliases ∧ st' = Some aliases ∧
        Forall (λ entry, isAccountId entry.1 = true) (Json.entries aliases)
  | (Error _, st') => st' = st
  end.
Proof.
  unfold StorageManager.importAliases.
  destruct parsed as [aliases|]; [| done].
  destruct (negb (Json.typeofObject aliases) || Json.isNull aliases); [done |].
  unfold StorageManager.firstInvalidKey.
  destruct (list_find _ _) as [[i entry]|] eqn:Hfind; [done |]. simpl.
  exists aliases. split; [done |]. split; [done |].
  apply list_find_None in Hfind. eapply Forall_impl; [exact Hfind |].
  intros entry Hentry. simpl in Hentry. by destruct (isAccountId entry.1).
Qed.

End store.

(** C8. [StorageManager.importAliases], which the settings page calls, does
    not do what the handler of the background script does: it keeps a mapping
    whose label is the empty string, or is no string at all, and it refuses
    the export shape, taking its member names for identifiers. *)
Theorem importAliases_misses_validation (st : storage) :
  let emptyLabel := JObject [ ("123456789012", JString "") ] in
  let numberLabel := JObject [ ("123456789012", JNumber 5) ] in
  let exported := JObject [ ("version", JString "1.0.0");
                            ("exportedAt", JString "2024-01-01T00:00:00.000Z");
                            ("aliases", JObject [ ("123456789012", JString "Prod") ]) ] in
  StorageManager.importAliases (Ok emptyLabel) st = (Ok (), Some emptyLabel) ∧
  StorageManager.importAliases (Ok numberLabel) st = (Ok (), Some numberLabel) ∧
  StorageManager.importAliases (Ok exported) st
  = (Error "Failed to import aliases: Invalid account ID: version", st) ∧
  Background.handleImportAliases "{...}" (Ok emptyLabel) st
  = (Error "Invalid alias for account 123456789012", st).
Proof. repeat split. Qed.

(** C9. [StorageManager.exportAliases], which the settings page calls,
    serializes the bare mapping: the document has no member [version],
    [exportedAt] or [aliases], unlike the one the handler of the background
    script builds. *)
Theorem exportAliases_is_bare_mapping :
  let aliases := JObject [ ("123456789012", JString "Prod") ] in
  StorageManager.exportAliases (Some aliases) = aliases ∧
  Json.get (StorageManager.exportAliases (Some aliases)) "version" = None ∧
  Json.get (StorageManager.exportAliases (Some aliases)) "exportedAt" = None ∧
  Json.get (StorageManager.exportAliases (Some aliases)) "aliases" = None ∧
  ∀ st, StorageManager.exportAliases st = StorageManager.getAllAliases st.
Proof. repeat split. Qed.


(** * Further properties of the program *)

(** ** Digits, identifiers and their two forms *)

Section digits.
Implicit Types s d r a b c k : string.

Lemma allDigits_app a b :
  Popup.allDigits (a +:+ b) = Popup.allDigits a && Popup.allDigits b.
Proof.
  induction a as [|x a IH]; [done |].
  rewrite string_app_cons. simpl. by rewrite IH, andb_assoc.
Qed.

Lemma digits_allDigits n s d r :
  Pattern.digits n s = Some (d, r) → Popup.allDigits d = true.
Proof.
  revert s d r. induction n as [|n IH]; intros s d r; simpl.
  - by intros [= <- _].
  - destruct s as [|x s]; [done |].
    destruct (Js.isDigit x) eqn:Hx; [| done].
    destruct (Pattern.digits n s) as [[d' r']|] eqn:Hd; [| done].
    simpl. intros [= <- _]. simpl. by rewrite Hx, (IH _ _ _ Hd).
Qed.

Lemma digits_intro d r :
  Popup.allDigits d = true →
  Pattern.digits (String.length d) (d +:+ r) = Some (d, r).
Proof.
  induction d as [|x d IH]; [done |].
  rewrite string_app_cons. simpl. intros [Hx Hd]%andb_true_iff.
  by rewrite Hx, (IH Hd).
Qed.

Lemma normalizeAccountId_allDigits d :
  Popup.allDigits d = true → normalizeAccountId d = d.
Proof.
  induction d as [|x d IH]; [done |].
  simpl. intros [Hx Hd]%andb_true_iff.
  rewrite decide_False by by apply isDigit_not_hyphen. by rewrite (IH Hd).
Qed.

Lemma isAccountId_iff s :
  isAccountId s = true ↔ Popup.allDigits s = true ∧ String.length s = 12.
Proof.
  split.
  - intros Hs. split; [| by apply isAccountId_length].
    by apply isAccountId_digits, digits_allDigits in Hs.
  - intros [Hd Hlen]. unfold isAccountId.
    pose proof (digits_intro s "" Hd) as H.
    rewrite string_app_nil_r, Hlen in H. by rewrite H.
Qed.

Lemma take_app_length a r : Js.take (String.length a) (a +:+ r) = a.
Proof.
  induction a as [|x a IH]; [by destruct r |].
  rewrite string_app_cons. simpl. by rewrite IH.
Qed.

Local Arguments Pattern.digits : simpl never.
Local Arguments Pattern.hyphen : simpl never.

(** What the first alternative matches: three groups of four digits. *)
Lemma formatted_inv s m r :
  Pattern.formatted s = Some (m, r) →
  ∃ a b c, m = a +:+ "-" +:+ b +:+ "-" +:+ c ∧
    Popup.allDigits (a +:+ b +:+ c) = true ∧
    String.length a = 4 ∧ String.length b = 4 ∧ String.length c = 4.
Proof.
  unfold Pattern.formatted. intros H.
  destruct (Pattern.digits 4 s) as [[a r1]|] eqn:H1; simpl in H; [| done].
  destruct (Pattern.hyphen r1) as [[h1 r2]|] eqn:H2; simpl in H; [| done].
  destruct (Pattern.digits 4 r2) as [[b r3]|] eqn:H3; simpl in H; [| done].
  destruct (Pattern.hyphen r3) as [[h2 r4]|] eqn:H4; simpl in H; [| done].
  destruct (Pattern.digits 4 r4) as [[c r5]|] eqn:H5; simpl in H; [| done].
  injection H as <- <-.
  apply hyphen_app in H2 as [-> _], H4 as [-> _].
  exists a, b, c. split; [done |].
  rewrite !allDigits_app.
  rewrite (digits_allDigits _ _ _ _ H1), (digits_allDigits _ _ _ _ H3),
    (digits_allDigits _ _ _ _ H5).
  apply digits_app in H1 as [_ ?], H3 as [_ ?], H5 as [_ ?]. done.
Qed.

Lemma formatted_intro a b c r :
  Popup.allDigits a = true → Popup.allDigits b = true → Popup.allDigits c = true →
  String.length a = 4 → String.length b = 4 → String.length c = 4 →
  Pattern.formatted (a +:+ "-" +:+ b +:+ "-" +:+ c +:+ r)
  = Some (a +:+ "-" +:+ b +:+ "-" +:+ c, r).
Proof.
  intros Ha Hb Hc La Lb Lc. unfold Pattern.formatted.
  pose proof (digits_intro a ("-" +:+ b +:+ "-" +:+ c +:+ r) Ha) as H1.
  pose proof (digits_intro b ("-" +:+ c +:+ r) Hb) as H2.
  pose proof (digits_intro c r Hc) as H3.
  rewrite La in H1. rewrite Lb in H2. rewrite Lc in H3.
  rewrite H1. simpl. rewrite string_app_nil_l, H2. simpl.
  by rewrite string_app_nil_l, H3.
Qed.

Lemma normalizeAccountId_groups a b c :
  Popup.allDigits (a +:+ b +:+ c) = true →
  normalizeAccountId (a +:+ "-" +:+ b +:+ "-" +:+ c) = a +:+ b +:+ c.
Proof.
  intros Hd. rewrite !normalizeAccountId_app.
  change (normalizeAccountId "-") with "". rewrite !string_app_nil_l.
  rewrite <- !normalizeAccountId_app. by apply normalizeAccountId_allDigits.
Qed.

Lemma length_four a :
  String.length a = 4 →
  ∃ w x y z, a = String w (String x (String y (String z ""))).
Proof.
  intros La. do 4 (destruct a as [|? a]; [done |]).
  destruct a; [| done]. by eexists _, _, _, _.
Qed.

Lemma formatAccountId_groups a b c :
  Popup.allDigits (a +:+ b +:+ c) = true →
  String.length a = 4 → String.length b = 4 → String.length c = 4 →
  formatAccountId (a +:+ b +:+ c) = a +:+ "-" +:+ b +:+ "-" +:+ c.
Proof.
  intros Hd La Lb Lc.
  rewrite formatAccountId_canonical.
  - apply length_four in La as (? & ? & ? & ? & ->).
    apply length_four in Lb as (? & ? & ? & ? & ->).
    apply length_four in Lc as (? & ? & ? & ? & ->). reflexivity.
  - apply isAccountId_iff. split; [done |]. rewrite !string_length_app. lia.
Qed.

End digits.

(** X1. [formatAccountId] is idempotent: the display form has fourteen code
    units, so formatting it again leaves it alone, and any other string was
    left alone the first time. *)
Theorem formatAccountId_idempotent (s : string) :
  formatAccountId (formatAccountId s) = formatAccountId s.
Proof.
  destruct (isAccountId s) eqn:Hs.
  - rewrite (formatAccountId_canonical s Hs).
    apply formatAccountId_other. unfold isAccountId.
    destruct (Pattern.digits 12 _) as [[d [|??]]|] eqn:Hd; [| done..].
    apply digits_app in Hd as [Heq Hlen]. rewrite string_app_nil_r in Heq.
    apply isAccountId_length in Hs. rewrite <- Heq in Hlen.
    do 13 (destruct s as [|? s]; [done |]). done.
  - by rewrite (formatAccountId_other s Hs), (formatAccountId_other s Hs).
Qed.

(** X2. The round trip from the display side: a string that is exactly three
    groups of four digits separated by hyphens is normalized to a canonical
    identifier, and formatting that gives the string back. *)
Theorem format_normalize_roundtrip (s : string) :
  Pattern.formatted s = Some (s, "") →
  isAccountId (normalizeAccountId s) = true ∧
  formatAccountId (normalizeAccountId s) = s.
Proof.
  intros (a & b & c & Hs & Hd & La & Lb & Lc)%formatted_inv.
  rewrite Hs, normalizeAccountId_groups by done. split.
  - apply isAccountId_iff. split; [done |]. rewrite !string_length_app. lia.
  - by apply formatAccountId_groups.
Qed.

Lemma format_normalize_roundtrip_witness :
  Pattern.formatted "1234-5678-9012" = Some ("1234-5678-9012", "") ∧
  formatAccountId (normalizeAccountId "1234-5678-9012") = "1234-5678-9012".
Proof.
  split; [reflexivity |].
  apply (format_normalize_roundtrip "1234-5678-9012"). reflexivity.
Defined.

(** X3. [normalizeAccountId] leaves no hyphen behind and is idempotent, on any
    string. *)
Theorem normalizeAccountId_idempotent (s : string) :
  Js.includes (normalizeAccountId s) "-" = false ∧
  normalizeAccountId (normalizeAccountId s) = normalizeAccountId s.
Proof.
  induction s as [|c s [IH1 IH2]]; [done |]. simpl.
  destruct (decide (c = "-"%char)) as [->|Hc]; [done |]. split.
  - simpl. rewrite IH1, orb_false_r. by rewrite decide_False.
  - simpl. by rewrite decide_False, IH2.
Qed.

Section detection.
Implicit Types s text k pre m post : string.

Local Arguments Pattern.digits : simpl never.

(** What the pattern matches is an identifier in one of its two forms. *)
Lemma matchHere_sound s m r :
  Pattern.matchHere s = Some (m, r) →
  isAccountId (normalizeAccountId m) = true.
Proof.
  unfold Pattern.matchHere.
  destruct (Pattern.formatted s) as [[m' r']|] eqn:Hf.
  - intros [= <- <-].
    apply formatted_inv in Hf as (a & b & c & -> & Hd & La & Lb & Lc).
    rewrite normalizeAccountId_groups by done.
    apply isAccountId_iff. split; [done |]. rewrite !string_length_app. lia.
  - intros Hd. pose proof (digits_allDigits _ _ _ _ Hd) as Hall.
    rewrite (normalizeAccountId_allDigits _ Hall).
    apply isAccountId_iff. split; [done |]. by apply digits_app in Hd as [_ ?].
Qed.

Lemma matchHere_plain k r :
  isAccountId k = true → is_Some (Pattern.matchHere (k +:+ r)).
Proof.
  intros [Hd Hlen]%isAccountId_iff. unfold Pattern.matchHere.
  destruct (Pattern.formatted (k +:+ r)); [by eexists |].
  pose proof (digits_intro k r Hd) as H. rewrite Hlen in H. rewrite H. by eexists.
Qed.

(** A canonical identifier is three groups of four digits. *)
Lemma isAccountId_groups k :
  isAccountId k = true →
  ∃ a b c, k = a +:+ b +:+ c ∧
    Popup.allDigits a = true ∧ Popup.allDigits b = true ∧ Popup.allDigits c = true ∧
    String.length a = 4 ∧ String.length b = 4 ∧ String.length c = 4.
Proof.
  intros [Hd Hlen]%isAccountId_iff.
  exists (Js.slice 0 4 k), (Js.slice 4 8 k), (Js.slice 8 12 k).
  rewrite <- (slices_app k Hlen) in Hd.
  rewrite !allDigits_app, !andb_true_iff in Hd. destruct Hd as (? & ? & ?).
  split; [by rewrite slices_app |].
  do 3 (split; [done |]).
  do 12 (destruct k as [|? k]; [done |]). by destruct k.
Qed.

Lemma matchHere_formatted k r :
  isAccountId k = true → is_Some (Pattern.matchHere (formatAccountId k +:+ r)).
Proof.
  intros (a & b & c & -> & Ha & Hb & Hc & La & Lb & Lc)%isAccountId_groups.
  rewrite formatAccountId_groups; [| by rewrite !allDigits_app, Ha, Hb, Hc | done..].
  unfold Pattern.matchHere. rewrite !string_app_assoc.
  rewrite formatted_intro by done. by eexists.
Qed.

Lemma search_app_intro pre s :
  is_Some (Pattern.matchHere s) → is_Some (Pattern.search (pre +:+ s)).
Proof.
  intros Hs. induction pre as [|c pre IH].
  - rewrite string_app_nil_l. destruct Hs as [[m r] Hm].
    destruct s as [|c s]; [by vm_compute in Hm |].
    simpl. rewrite Hm. by eexists.
  - rewrite string_app_cons. simpl.
    destruct (Pattern.matchHere (String c (pre +:+ s))) as [[m r]|];
      [by eexists |].
    destruct IH as [[[pre' m'] post'] ->]. by eexists.
Qed.

End detection.

(** X4. Every occurrence the shared pattern finds is an identifier: the text
    splits around it, and its normal form is twelve digits. *)
Theorem search_sound (text pre m post : string) :
  Pattern.search text = Some (pre, m, post) →
  text = pre +:+ m +:+ post ∧ isAccountId (normalizeAccountId m) = true.
Proof.
  intros Hs. split; [by apply search_app in Hs as [? _] |].
  revert pre Hs. induction text as [|c text IH]; intros pre; simpl.
  - intros H. by vm_compute in H.
  - destruct (Pattern.matchHere (String c text)) as [[m' r']|] eqn:Hm.
    + intros [= <- <- <-]. by eapply matchHere_sound.
    + destruct (Pattern.search text) as [[[pre' m'] post']|] eqn:Hs; [| done].
      simpl. intros [= <- <- <-]. by eapply IH.
Qed.

Lemma search_sound_witness :
  Pattern.search "Account: 1234-5678-9012" = Some ("Account: ", "1234-5678-9012", "") ∧
  isAccountId (normalizeAccountId "1234-5678-9012") = true.
Proof.
  split; [reflexivity |].
  apply (search_sound "Account: 1234-5678-9012" "Account: " "1234-5678-9012" "").
  reflexivity.
Defined.

(** X5. The shared pattern, scanning from the start, misses no identifier: a
    text that contains a canonical identifier, as twelve digits or in the
    hyphenated form, tests positive. *)
Theorem test_finds_identifier (text k : string) :
  isAccountId k = true →
  Js.includes text k || Js.includes text (formatAccountId k) = true →
  (AccountIdPattern.test text 0).1 = true.
Proof.
  intros Hk Hinc. rewrite test_fresh. apply bool_decide_eq_true_2.
  apply orb_true_iff in Hinc as [Hinc | Hinc];
    apply includes_spec in Hinc as (pre & post & ->);
    apply search_app_intro;
    [by apply matchHere_plain | by apply matchHere_formatted].
Qed.

Lemma test_finds_identifier_witness :
  isAccountId "123456789012" = true ∧
  (AccountIdPattern.test "ID 1234-5678-9012 (current)" 0).1 = true.
Proof.
  split; [reflexivity |].
  apply (test_finds_identifier "ID 1234-5678-9012 (current)" "123456789012");
    reflexivity.
Defined.

(** ** The shared pattern: where a test leaves it *)

Lemma length_drop_string (n : nat) (s : string) :
  String.length (Js.drop n s) = String.length s - n.
Proof.
  revert s. induction n as [|n IH]; intros [|c s]; simpl; done.
Qed.

(** X6. After [ACCOUNT_ID_PATTERN.test(s)], whatever [lastIndex] was before: a
    failed test leaves the pattern at 0, a successful one leaves it behind
    the match, at least twelve further and within the text. *)
Theorem test_lastIndex (s : string) (lastIndex : nat) :
  match AccountIdPattern.test s lastIndex with
  | (true, lastIndex') => lastIndex + 12 ≤ lastIndex' ≤ String.length s
  | (false, lastIndex') => lastIndex' = 0
  end.
Proof.
  unfold AccountIdPattern.test, AccountIdPattern.exec, bind, ret.
  case_decide as Hlen; [done |].
  destruct (Pattern.search (Js.drop lastIndex s)) as [[[pre m] post]|] eqn:Hs;
    [| done].
  simpl. apply search_app in Hs as [Hs Hm].
  apply (f_equal String.length) in Hs.
  rewrite length_drop_string, !string_length_app in Hs. lia.
Qed.

(** ** Text rewriting *)

Section more_rewriting.
Variable aliasMap : gmap string string.
Implicit Types s text k alias : string.

Lemma replaceLoop_same (f : string → string) fuel s :
  (∀ pre m post, Pattern.search s = Some (pre, m, post) → False) ∨ (∀ m, f m = m) →
  AccountIdPattern.replaceLoop fuel f s = s.
Proof.
  revert s. induction fuel as [|fuel IH]; intros s Hwhy; [done |]. simpl.
  destruct (Pattern.search s) as [[[pre m] post]|] eqn:Hs; [| done].
  destruct Hwhy as [Hnone | Hf]; [by destruct (Hnone pre m post) |].
  apply search_app in Hs as [-> _]. rewrite Hf, IH; [done | by right].
Qed.

Lemma includes_char_app (c : ascii) s t :
  Js.includes (s +:+ t) (String c "") =
  Js.includes s (String c "") || Js.includes t (String c "").
Proof.
  induction s as [|x s IH]; [by rewrite string_app_nil_l |].
  rewrite string_app_cons. simpl. rewrite IH.
  case_decide; [done |]. simpl. by destruct t.
Qed.

Lemma allDigits_no_paren s :
  Popup.allDigits s = true → Js.includes s "(" = false.
Proof.
  induction s as [|x s IH]; [done |]. simpl.
  intros [Hx Hs]%andb_true_iff. rewrite (IH Hs).
  case_decide as Hp; [| done]. by subst x.
Qed.

Lemma hasAlreadyProcessed_no_paren text :
  Js.includes text "(" = false → hasAlreadyProcessed text aliasMap = false.
Proof. intros H. unfold hasAlreadyProcessed. by rewrite H. Qed.

(** The text that is exactly one occurrence, with a label in the mapping. *)
Lemma applyAliasesToText_occurrence text alias lastIndex :
  Pattern.matchHere text = Some (text, "") →
  Js.includes text "(" = false →
  aliasMap !! normalizeAccountId text = Some alias →
  Js.truthy alias = true →
  applyAliasesToText text aliasMap lastIndex
  = (text +:+ " (" +:+ alias +:+ ")", 0).
Proof.
  intros Hm Hparen Hk Halias. unfold applyAliasesToText.
  rewrite (hasAlreadyProcessed_no_paren _ Hparen).
  unfold AccountIdPattern.replace. f_equal.
  destruct text as [|c text]; [by vm_compute in Hm |].
  cbn [String.length AccountIdPattern.replaceLoop Pattern.search].
  rewrite Hm. unfold withAlias. rewrite Hk, Halias.
  rewrite string_app_nil_l.
  assert (∀ fuel, AccountIdPattern.replaceLoop fuel (withAlias aliasMap) "" = "")
    as -> by by intros [|?].
  by rewrite string_app_nil_r.
Qed.

End more_rewriting.

Lemma applyAliasesToText_same
    (text : string) (aliasMap : gmap string string) (lastIndex : nat) :
  Pattern.search text = None ∨ (∀ k alias, aliasMap !! k = Some alias → alias = "") →
  (applyAliasesToText text aliasMap lastIndex).1 = text.
Proof.
  intros Hwhy. unfold applyAliasesToText.
  destruct (hasAlreadyProcessed text aliasMap); [done |].
  unfold AccountIdPattern.replace. simpl. apply replaceLoop_same.
  destruct Hwhy as [Hnone | Hempty]; [left; by intros ??? ?%(eq_trans (eq_sym Hnone)) |].
  right. intros m. unfold withAlias.
  destruct (aliasMap !! normalizeAccountId m) as [alias|] eqn:Hk; [| done].
  by rewrite (Hempty _ _ Hk).
Qed.

(** X8. A text in which the shared pattern finds no identifier, or a mapping with
    no label other than the empty string (the empty mapping among them):
    [applyAliasesToText] gives the text back as it is. *)
Theorem applyAliasesToText_unchanged
    (text : string) (aliasMap : gmap string string) (lastIndex : nat) :
  Pattern.search text = None ∨ (∀ k alias, aliasMap !! k = Some alias → alias = "") →
  (applyAliasesToText text aliasMap lastIndex).1 = text.
Proof.
  intros Hwhy. unfold applyAliasesToText.
  destruct (hasAlreadyProcessed text aliasMap); [done |].
  unfold AccountIdPattern.replace. simpl. apply replaceLoop_same.
  destruct Hwhy as [Hnone | Hempty].
  - left. intros pre m post Hs. by rewrite Hnone in Hs.
  - right. intros m. unfold withAlias.
    destruct (aliasMap !! normalizeAccountId m) as [alias|] eqn:Hk; [| done].
    by rewrite (Hempty _ _ Hk).
Qed.

Lemma applyAliasesToText_unchanged_witness :
  (applyAliasesToText "123456789012 is here" ∅ 0).1 = "123456789012 is here".
Proof.
  apply (applyAliasesToText_unchanged "123456789012 is here" ∅ 0).
  right. intros k alias H. by rewrite lookup_empty in H.
Defined.

(** X9. A text that is exactly one registered identifier, as twelve digits or in
    the hyphenated form, gets its label appended in parentheses and keeps its
    form; the pattern is left at 0. *)
Theorem applyAliasesToText_labels_both_forms
    (k alias : string) (aliasMap : gmap string string) (lastIndex : nat) :
  isAccountId k = true →
  aliasMap !! k = Some alias →
  alias ≠ "" →
  applyAliasesToText k aliasMap lastIndex = (k +:+ " (" +:+ alias +:+ ")", 0) ∧
  applyAliasesToText (formatAccountId k) aliasMap lastIndex
  = (formatAccountId k +:+ " (" +:+ alias +:+ ")", 0).
Proof.
  intros Hk Hlookup Halias.
  assert (Js.truthy alias = true) as Htruthy by by destruct alias.
  pose proof Hk as [Hd Hlen]%isAccountId_iff. split.
  - apply applyAliasesToText_occurrence; [| by apply allDigits_no_paren | | done].
    + unfold Pattern.matchHere.
      destruct (Pattern.formatted k) as [[m r]|] eqn:Hf;
        [| by apply isAccountId_digits].
      pose proof (formatted_app _ _ _ Hf) as [Hkm _].
      apply formatted_inv in Hf as (a & b & c & -> & _).
      rewrite Hkm, !allDigits_app in Hd. simpl in Hd.
      by rewrite !andb_false_r, ?andb_false_l in Hd.
    + by rewrite normalizeAccountId_allDigits.
  - destruct (isAccountId_groups k Hk) as (a & b & c & -> & Ha & Hb & Hc & La & Lb & Lc).
    assert (Popup.allDigits (a +:+ b +:+ c) = true) as Habc
      by by rewrite !allDigits_app, Ha, Hb, Hc.
    rewrite formatAccountId_groups by done.
    apply applyAliasesToText_occurrence; [| | | done].
    + unfold Pattern.matchHere.
      pose proof (formatted_intro a b c "" Ha Hb Hc La Lb Lc) as Hf.
      rewrite !string_app_nil_r in Hf. by rewrite Hf.
    + rewrite !includes_char_app.
      by rewrite (allDigits_no_paren a Ha), (allDigits_no_paren b Hb),
        (allDigits_no_paren c Hc).
    + by rewrite normalizeAccountId_groups.
Qed.

Lemma applyAliasesToText_labels_both_forms_witness :
  applyAliasesToText "123456789012" {[ "123456789012" := "Prod" ]} 7
  = ("123456789012 (Prod)", 0) ∧
  applyAliasesToText "1234-5678-9012" {[ "123456789012" := "Prod" ]} 7
  = ("1234-5678-9012 (Prod)", 0).
Proof.
  apply (applyAliasesToText_labels_both_forms "123456789012" "Prod"
           {[ "123456789012" := "Prod" ]} 7); [reflexivity | reflexivity | done].
Defined.

(** X10. The guard is coarse: as soon as the text holds one label of the mapping
    in parentheses, [applyAliasesToText] returns it as it is and does not
    touch the pattern, whatever other registered identifiers stand in it
    without a label. *)
Theorem applyAliasesToText_guard
    (text alias : string) (aliasMap : gmap string string) (lastIndex : nat) :
  alias ∈ values aliasMap →
  Js.includes text ("(" +:+ alias +:+ ")") = true →
  applyAliasesToText text aliasMap lastIndex = (text, lastIndex).
Proof.
  intros Hin Hinc. unfold applyAliasesToText.
  by rewrite (hasAlreadyProcessed_intro aliasMap text alias Hin Hinc).
Qed.

Lemma applyAliasesToText_guard_witness :
  let aliasMap : gmap string string :=
    {[ "111111111111" := "Dev"; "123456789012" := "Prod" ]} in
  applyAliasesToText "1111-1111-1111 (Dev) and 1234-5678-9012" aliasMap 0
  = ("1111-1111-1111 (Dev) and 1234-5678-9012", 0).
Proof.
  apply (applyAliasesToText_guard "1111-1111-1111 (Dev) and 1234-5678-9012" "Dev").
  - apply (elem_of_values _ "111111111111"). reflexivity.
  - reflexivity.
Defined.

Lemma list_ascii_app (s t : string) :
  String.list_ascii_of_string (s +:+ t)
  = String.list_ascii_of_string s ++ String.list_ascii_of_string t.
Proof.
  induction s as [|c s IH]; [done |]. rewrite string_app_cons. simpl. by rewrite IH.
Qed.

(** X11. Rewriting only adds: the code units of the text are still there, in
    their order, in what [applyAliasesToText] returns. *)
Theorem applyAliasesToText_additive
    (text : string) (aliasMap : gmap string string) (lastIndex : nat) :
  sublist (String.list_ascii_of_string text)
          (String.list_ascii_of_string (applyAliasesToText text aliasMap lastIndex).1).
Proof.
  unfold applyAliasesToText.
  destruct (hasAlreadyProcessed text aliasMap); [done |].
  unfold AccountIdPattern.replace. simpl.
  generalize (String.length text) as fuel. intros fuel. revert text.
  induction fuel as [|fuel IH]; intros text; [done |]. simpl.
  destruct (Pattern.search text) as [[[pre m] post]|] eqn:Hs; [| done].
  apply search_app in Hs as [-> _]. rewrite !list_ascii_app.
  apply sublist_app; [done |]. apply sublist_app; [| apply IH].
  destruct (withAlias_cases aliasMap m) as [-> | (alias & _ & ->)]; [done |].
  rewrite list_ascii_app. by apply sublist_inserts_r.
Qed.

(** ** Annotating without labels, and clearing *)

Section more_annotator.
Implicit Types (ancestors : list element) (e : element) (n : node).
Implicit Types (cs : list node) (aliasMap : gmap string string).

Lemma splice_identity n : ∀ rest,
  splice n (map (λ t, [Text t]) (textNodes n) ++ rest) = ([n], rest).
Proof.
  induction n as [v|e cs IH] using node_ind'; intros rest; [done |].
  cbn [splice textNodes].
  assert (spliceEach splice cs
            (map (λ t, [Text t]) (concat (map textNodes cs)) ++ rest)
          = (cs, rest)) as ->; [| done].
  induction IH as [|c cs Hc _ IHcs]; [done |].
  cbn [spliceEach map concat]. fold (spliceEach splice).
  rewrite map_app, <- app_assoc, Hc, IHcs. done.
Qed.

Lemma spliceEach_identity cs :
  spliceEach splice cs (map (λ t, [Text t]) (concat (map textNodes cs))) = (cs, []).
Proof.
  pose proof (splice_identity (Element (mkElement "" ∅) cs) []) as H.
  cbn [splice textNodes] in H. rewrite app_nil_r in H.
  by destruct (spliceEach splice cs _) as [cs' fs']; simplify_eq.
Qed.

Lemma forEach_updateTextNode_unchanged aliasMap (shown : list (bool * string)) :
  (∀ text lastIndex, (applyAliasesToText text aliasMap lastIndex).1 = text) →
  ∀ lastIndex,
    (forEach (updateTextNode aliasMap) shown lastIndex).1
    = map (λ entry, Some [Text entry.2]) shown.
Proof.
  intros Hsame. induction shown as [|[accepted text] shown IH]; intros lastIndex;
    [done |].
  cbn [forEach]. unfold bind, ret. fold (forEach (updateTextNode aliasMap)).
  assert (∃ l1, updateTextNode aliasMap (accepted, text) lastIndex
                = (Some [Text text], l1)) as [l1 ->].
  { unfold updateTextNode, bind, ret. destruct accepted; [| by eexists].
    specialize (Hsame text lastIndex).
    destruct (applyAliasesToText text aliasMap lastIndex) as [newText l1].
    simpl in Hsame. subst newText. rewrite decide_True by done. by eexists. }
  specialize (IH l1).
  destruct (forEach (updateTextNode aliasMap) shown l1) as [bs l2].
  simpl in *. by rewrite IH.
Qed.

Lemma mapM_id_Some {A} (l : list A) : mapM id (map Some l) = Some l.
Proof. induction l as [|a l IH]; [done |]. simpl. by rewrite IH. Qed.

(** On a list of siblings without spans below, the first loop of the
    clearing pass changes nothing. *)
Lemma removeSpansEach_id cs : ∀ before,
  Forall (λ n, matchesWithin ALIAS_SPAN n = false → removeAliasSpans n = n) cs →
  Forall (λ n, matchesWithin ALIAS_SPAN n = false) cs →
  removeSpansEach removeAliasSpans before cs = rev before ++ cs.
Proof.
  induction cs as [|c cs IH]; intros before Hid Hnone; simpl.
  - by rewrite app_nil_r.
  - apply Forall_cons in Hid as [Hc Hid]. apply Forall_cons in Hnone as [Hn Hnone].
    assert (isAliasSpan c = false) as ->.
    { destruct c as [v|e cs']; [done |]. simpl in Hn.
      by apply orb_false_iff in Hn as [? _]. }
    rewrite IH, Hc by done. simpl. by rewrite <- app_assoc.
Qed.

Lemma existsb_false_Forall {A} (p : A → bool) (l : list A) :
  existsb p l = false ↔ Forall (λ a, p a = false) l.
Proof.
  induction l as [|a l IH]; simpl; [by split |].
  rewrite orb_false_iff, Forall_cons, IH. done.
Qed.

Lemma removeAliasSpans_id n :
  matchesWithin ALIAS_SPAN n = false → removeAliasSpans n = n.
Proof.
  induction n as [v|e cs IH] using node_ind'; [done |].
  cbn [matchesWithin removeAliasSpans]. intros [_ Hcs]%orb_false_iff.
  apply existsb_false_Forall in Hcs. by rewrite removeSpansEach_id.
Qed.

Lemma removeMarks_id n :
  matchesWithin ALIAS_APPLIED n = false → removeMarks n = n.
Proof.
  induction n as [v|e cs IH] using node_ind'; [done |].
  cbn [matchesWithin removeMarks]. intros [-> Hcs]%orb_false_iff.
  apply existsb_false_Forall in Hcs. f_equal.
  induction IH as [|c cs Hc _ IHcs]; [done |].
  apply Forall_cons in Hcs as [? ?]. simpl. by rewrite Hc, IHcs.
Qed.

Lemma textContent_removeMarks n : textContent (removeMarks n) = textContent n.
Proof.
  induction n as [v|e cs IH] using node_ind'; [done |].
  cbn [removeMarks textContent].
  induction IH as [|c cs Hc _ IHcs]; [done |]. simpl. by rewrite Hc, IHcs.
Qed.

(** The children that the clearing pass leaves hold no span and no mark. *)
Lemma cleared_children cs :
  let cs' := map removeMarks (removeSpansEach removeAliasSpans [] cs) in
  Forall (λ n, matchesWithin ALIAS_SPAN n = false) cs' ∧
  Forall (λ n, matchesWithin ALIAS_APPLIED n = false) cs'.
Proof.
  simpl. split.
  - apply Forall_fmap.
    eapply Forall_impl.
    + apply removeSpansEach_spanless; [| constructor].
      apply Forall_forall. intros n _. apply removeAliasSpans_spanless.
    + intros n Hn. simpl. by rewrite matchesWithin_removeMarks.
  - apply Forall_fmap, Forall_forall. intros n _. apply removeMarks_unmarked.
Qed.

End more_annotator.

(** X12. With a mapping that holds no label other than the empty string (the
    empty mapping among them), [applyAliasToElement] leaves the children as
    they are, whatever the pattern held: at most the mark is set on the
    element. *)
Theorem applyAliasToElement_without_labels
    (ancestors : list element) (e : element) (cs : list node)
    (aliasMap : gmap string string) (lastIndex : nat) :
  (∀ k alias, aliasMap !! k = Some alias → alias = "") →
  (applyAliasToElement ancestors e cs aliasMap lastIndex).1 = Some (Element e cs) ∨
  (applyAliasToElement ancestors e cs aliasMap lastIndex).1
  = Some (Element (setAliasApplied e) cs).
Proof.
  intros Hempty. unfold applyAliasToElement.
  destruct (isExcludedElement ancestors e cs); [by left |].
  destruct (aliasApplied e); [by left |].
  destruct (querySelectorFinds ALIAS_SPAN cs); [by right |].
  right. unfold bind, ret.
  pose proof (walk_length (Element e cs) ancestors false lastIndex) as Hlen.
  destruct (walk ancestors false (Element e cs) lastIndex) as [accepted l1].
  pose proof (forEach_updateTextNode_unchanged aliasMap
                (zip accepted (textNodes (Element e cs)))
                (λ text li, applyAliasesToText_same text aliasMap li (or_intror Hempty))
                l1) as Hfs.
  destruct (forEach _ _ l1) as [fragments l2]. simpl in *. subst fragments.
  rewrite <- (map_map (λ entry : bool * string, [Text entry.2]) Some).
  rewrite mapM_id_Some. simpl.
  rewrite <- (map_map snd (λ t, [Text t])).
  change (map snd ?l) with (l.*2). rewrite snd_zip by lia.
  by rewrite spliceEach_identity.
Qed.

Lemma applyAliasToElement_without_labels_witness :
  let e := mkElement "div" ∅ in
  (applyAliasToElement [] e [Text "Account: 1234-5678-9012"] ∅ 0).1
  = Some (Element (setAliasApplied e) [Text "Account: 1234-5678-9012"]).
Proof.
  destruct (applyAliasToElement_without_labels [] (mkElement "div" ∅)
              [Text "Account: 1234-5678-9012"] ∅ 0) as [H | H].
  - intros k alias Hk. by rewrite lookup_empty in Hk.
  - exfalso. vm_compute in H. discriminate H.
  - exact H.
Defined.

(** X14. Where no span of class [aws-custom-alias] stands below the element,
    [clearAliasesFromElement] leaves the text content as it is. *)
Theorem clearAliasesFromElement_spanless (e : element) (cs : list node) :
  querySelectorFinds ALIAS_SPAN cs = false →
  textContent (clearAliasesFromElement e cs) = textContent (Element e cs).
Proof.
  intros Hnone%existsb_false_Forall. unfold clearAliasesFromElement.
  rewrite removeSpansEach_id; [| | done].
  - cbn [textContent rev app]. clear Hnone.
    induction cs as [|c cs IH]; [done |]. simpl.
    by rewrite textContent_removeMarks, IH.
  - apply Forall_forall. intros n _. apply removeAliasSpans_id.
Qed.

Lemma clearAliasesFromElement_spanless_witness :
  let e := mkElement "div" {[ "data-alias-applied" := "true" ]} in
  let cs := [ Text "Account: ";
              Element (mkElement "b" {[ "data-alias-applied" := "true" ]})
                      [Text "1234-5678-9012 (Prod)"] ] in
  textContent (clearAliasesFromElement e cs) = "Account: 1234-5678-9012 (Prod)".
Proof.
  apply (clearAliasesFromElement_spanless
           (mkElement "div" {[ "data-alias-applied" := "true" ]})
           [ Text "Account: ";
             Element (mkElement "b" {[ "data-alias-applied" := "true" ]})
                     [Text "1234-5678-9012 (Prod)"] ]).
  reflexivity.
Defined.

(** X15. Clearing twice is clearing once. *)
Theorem clearAliasesFromElement_idempotent (e : element) (cs : list node) :
  ∃ cs', clearAliasesFromElement e cs = Element e cs' ∧
         clearAliasesFromElement e cs' = Element e cs'.
Proof.
  exists (map removeMarks (removeSpansEach removeAliasSpans [] cs)).
  split; [done |].
  destruct (cleared_children cs) as [Hspans Hmarks]. simpl in *.
  set (cs1 := map removeMarks (removeSpansEach removeAliasSpans [] cs)) in *.
  clearbody cs1. unfold clearAliasesFromElement. f_equal.
  rewrite removeSpansEach_id; [| | done].
  - simpl. clear Hspans. induction Hmarks as [|c cs' Hc _ IH]; [done |].
    simpl. by rewrite removeMarks_id, IH.
  - apply Forall_forall. intros n _. apply removeAliasSpans_id.
Qed.

(** X16. [clearAliasesFromElement] does not look at the element it is given, only
    below it: a mark on the element itself stays, and [applyAliasToElement]
    on the cleared element then does nothing, for any mapping. *)
Theorem clearAliasesFromElement_keeps_own_mark
    (ancestors : list element) (e : element) (cs : list node)
    (aliasMap : gmap string string) (lastIndex : nat) :
  aliasApplied e = true →
  ∃ cs', clearAliasesFromElement e cs = Element e cs' ∧
    applyAliasToElement ancestors e cs' aliasMap lastIndex
    = (Some (Element e cs'), lastIndex).
Proof.
  intros Hmark. eexists. split; [reflexivity |].
  by apply applyAliasToElement_marked_noop.
Qed.

Lemma clearAliasesFromElement_keeps_own_mark_witness :
  let body := mkElement "body" {[ "data-alias-applied" := "true" ]} in
  let annotated :=
    [ Text "Account: 1234-5678-9012 ";
      Element (mkElement "span" {[ "class" := "aws-custom-alias" ]}) [Text "(Prod)"] ] in
  clearAliasesFromElement body annotated
  = Element body [Text "Account: 1234-5678-9012 "] ∧
  applyAliasToElement [] body [Text "Account: 1234-5678-9012 "]
    {[ "123456789012" := "Production" ]} 0
  = (Some (Element body [Text "Account: 1234-5678-9012 "]), 0).
Proof.
  split; [reflexivity |].
  destruct (clearAliasesFromElement_keeps_own_mark []
              (mkElement "body" {[ "data-alias-applied" := "true" ]})
              [ Text "Account: 1234-5678-9012 ";
                Element (mkElement "span" {[ "class" := "aws-custom-alias" ]})
                        [Text "(Prod)"] ]
              {[ "123456789012" := "Production" ]} 0)
    as (cs' & Hclear & Hrun); [reflexivity |].
  injection Hclear as <-. exact Hrun.
Defined.

(** ** A pass over the page *)

Section page.
Implicit Types s t pre m post : string.

Lemma hasInk_inv x s :
  hasInk (String x s) → Js.isWhiteSpace x = false ∨ hasInk s.
Proof.
  intros ([|y pre] & c & post & Hs & Hc).
  - rewrite string_app_nil_l in Hs. injection Hs as -> ->. by left.
  - rewrite string_app_cons in Hs. injection Hs as -> ->.
    right. by exists pre, c, post.
Qed.

Lemma trimStart_hasInk s : hasInk s → hasInk (Js.trimStart s).
Proof.
  induction s as [|x s IH]; [done |]. simpl.
  destruct (Js.isWhiteSpace x) eqn:Hx; [| done].
  intros [? | ?]%hasInk_inv; [congruence | by apply IH].
Qed.

Lemma trimEnd_hasInk s : hasInk s → Js.trimEnd s ≠ "".
Proof.
  induction s as [|x s IH].
  - intros ([|y pre] & c & post & Hs & _); discriminate Hs.
  - intros [Hx | Hs]%hasInk_inv; simpl.
    + destruct (Js.trimEnd s); [by rewrite Hx | done].
    + specialize (IH Hs). by destruct (Js.trimEnd s).
Qed.

Lemma isDigit_not_whiteSpace c : Js.isDigit c = true → Js.isWhiteSpace c = false.
Proof. destruct c as [[] [] [] [] [] [] [] []]; done. Qed.

Lemma digits_first n s d r :
  Pattern.digits (S n) s = Some (d, r) →
  ∃ c d', d = String c d' ∧ Js.isDigit c = true.
Proof.
  simpl. destruct s as [|c s]; [done |].
  destruct (Js.isDigit c) eqn:Hc; [| done].
  destruct (Pattern.digits n s) as [[d' r']|]; [| done].
  simpl. intros [= <- <-]. by eexists _, _.
Qed.

Local Arguments Pattern.digits : simpl never.

(** An occurrence starts with a digit. *)
Lemma matchHere_first s m r :
  Pattern.matchHere s = Some (m, r) →
  ∃ c m', m = String c m' ∧ Js.isDigit c = true.
Proof.
  unfold Pattern.matchHere.
  destruct (Pattern.formatted s) as [[m' r']|] eqn:Hf; [| apply digits_first].
  intros [= <- <-].
  apply formatted_inv in Hf as (a & b & c & -> & Hd & La & _).
  apply length_four in La as (w & x & y & z & ->).
  rewrite !string_app_cons in *. simpl in Hd.
  apply andb_true_iff in Hd as [Hw _]. by eexists _, _.
Qed.

Lemma search_first s pre m post :
  Pattern.search s = Some (pre, m, post) →
  ∃ c m', m = String c m' ∧ Js.isDigit c = true.
Proof.
  revert pre. induction s as [|x s IH]; intros pre; simpl.
  - intros H. by vm_compute in H.
  - destruct (Pattern.matchHere (String x s)) as [[m' r']|] eqn:Hm.
    + intros [= <- <- <-]. by eapply matchHere_first.
    + destruct (Pattern.search s) as [[[pre' m'] post']|] eqn:Hs; [| done].
      simpl. intros [= <- <- <-]. by eapply IH.
Qed.

(** A text in which the pattern finds an identifier is not blank. *)
Lemma search_not_blank s pre m post :
  Pattern.search s = Some (pre, m, post) → Js.truthy (Js.trim s) = true.
Proof.
  intros Hs. pose proof (search_first _ _ _ _ Hs) as (c & m' & -> & Hc).
  apply search_app in Hs as [-> _].
  assert (hasInk (pre +:+ String c m' +:+ post)) as Hink.
  { exists pre, c, (m' +:+ post). split; [by rewrite string_app_cons |].
    by apply isDigit_not_whiteSpace. }
  apply trimStart_hasInk, trimEnd_hasInk in Hink. unfold Js.trim.
  by destruct (Js.trimEnd _).
Qed.

(** Behind the last identifier of a text the test fails and rewinds. *)
Lemma test_behind_last s pre m post :
  Pattern.search s = Some (pre, m, post) →
  Pattern.search post = None →
  AccountIdPattern.test s (String.length pre + String.length m) = (false, 0).
Proof.
  intros [-> _]%search_app Hpost.
  unfold AccountIdPattern.test, AccountIdPattern.exec, bind, ret.
  rewrite decide_False by (rewrite !string_length_app; lia).
  rewrite <- string_length_app, <- string_app_assoc, drop_app_length.
  by rewrite Hpost.
Qed.

End page.

(** X17. A pass over the page, the pattern being fresh: an element that is
    neither excluded nor marked, whose only child is a text node with exactly
    one identifier in it, is marked and its text is left as it was, whatever
    the mapping. The caller's test on the text content leaves the pattern
    behind the identifier, so the filter of the tree walker rejects the text
    node. *)
Theorem applyAliasesToPage_element_skips_single
    (ancestors : list element) (e : element) (t pre m post : string)
    (aliasMap : gmap string string) :
  isExcludedElement ancestors e [Text t] = false →
  aliasApplied e = false →
  Pattern.search t = Some (pre, m, post) →
  Pattern.search post = None →
  applyAliasesToPage_element ancestors e [Text t] aliasMap 0
  = (Some (Element (setAliasApplied e) [Text t]), 0).
Proof.
  intros Hex Hmark Hs Hpost. unfold applyAliasesToPage_element.
  rewrite Hmark. cbn [negb textOf foldr textContent]. rewrite string_app_nil_r.
  unfold bind at 1. destruct (test_after_match _ _ _ _ Hs) as [-> _].
  unfold applyAliasToElement. rewrite Hex, Hmark.
  change (querySelectorFinds ALIAS_SPAN [Text t]) with false.
  cbn [walk forEach]. rewrite Hex. unfold acceptNode.
  rewrite (search_not_blank _ _ _ _ Hs). cbn [negb].
  unfold bind, ret. by rewrite (test_behind_last _ _ _ _ Hs Hpost).
Qed.

Lemma applyAliasesToPage_element_skips_single_witness :
  let e := mkElement "td" ∅ in
  applyAliasesToPage_element [] e [Text "123456789012"]
    {[ "123456789012" := "Prod" ]} 0
  = (Some (Element (setAliasApplied e) [Text "123456789012"]), 0).
Proof.
  apply (applyAliasesToPage_element_skips_single [] (mkElement "td" ∅)
           "123456789012" "" "123456789012" ""); reflexivity.
Defined.

(** ** The content script: registered identifiers and locations *)

Lemma test_finds (text k : string) :
  isAccountId k = true →
  Js.includes text k || Js.includes text (formatAccountId k) = true →
  (AccountIdPattern.test text 0).1 = true.
Proof.
  intros Hk Hinc. rewrite test_fresh. apply bool_decide_eq_true_2.
  apply orb_true_iff in Hinc as [Hinc | Hinc];
    apply includes_spec in Hinc as (pre & post & ->);
    apply search_app_intro;
    [by apply matchHere_plain | by apply matchHere_formatted].
Qed.

(** X18. With a mapping whose keys are canonical identifiers, the registered-id
    check of [applyAliasesToNavigation] admits no text that the shared
    pattern, scanning from the start, would not: the two differ only in that
    the check leaves the pattern alone. *)
Theorem hasRegisteredAccountId_detected (text : string) (aliasMap : gmap string string) :
  map_Forall (λ k _, isAccountId k = true) aliasMap →
  Content.hasRegisteredAccountId text aliasMap = true →
  (AccountIdPattern.test text 0).1 = true.
Proof.
  intros Hkeys Hreg. unfold Content.hasRegisteredAccountId in Hreg.
  apply existsb_exists in Hreg as (k & Hin & Hinc).
  apply list_elem_of_In, list_elem_of_fmap in Hin as ([k' alias] & -> & Hin).
  apply elem_of_map_to_list in Hin. simpl in *.
  eapply test_finds; [| done]. by eapply Hkeys.
Qed.

Lemma hasRegisteredAccountId_detected_witness :
  Content.hasRegisteredAccountId "Account ID: 1234-5678-9012"
    {[ "123456789012" := "Prod" ]} = true ∧
  (AccountIdPattern.test "Account ID: 1234-5678-9012" 0).1 = true.
Proof.
  split; [reflexivity |].
  apply (hasRegisteredAccountId_detected "Account ID: 1234-5678-9012"
           {[ "123456789012" := "Prod" ]}); [| reflexivity].
  apply map_Forall_singleton. reflexivity.
Defined.

(** X19. In [shouldApplyAliases] the entry ["/console/home"] of the allow-list
    adds nothing: any path with ["/console/"] in it is allowed, so the
    page content is annotated on every console path, not on the home view
    only. *)
Theorem shouldApplyAliases_console (currentPath currentHost : string) :
  Content.shouldApplyAliases currentPath currentHost =
  Js.includes currentPath "/console/" ||
  Js.includes currentPath "/sessions/selector" ||
  Js.includes currentHost "signin.aws.amazon.com".
Proof.
  unfold Content.shouldApplyAliases, Content.allowedPaths. simpl.
  rewrite orb_false_r.
  destruct (Js.includes currentPath "/console/home") eqn:Hhome; [| done].
  assert (Js.includes currentPath "/console/" = true) as ->; [| done].
  by apply (includes_trans _ _ _ Hhome).
Qed.

(** X20. A location that [detectAndMarkPageType] tags as the session selector is
    one where [shouldApplyAliases] lets the page content be annotated. *)
Theorem detectAndMarkPageType_eligible (currentPath currentHost : string) :
  Content.detectAndMarkPageType currentPath currentHost = true →
  Content.shouldApplyAliases currentPath currentHost = true.
Proof.
  unfold Content.detectAndMarkPageType, Content.shouldApplyAliases,
    Content.allowedPaths. simpl.
  intros [-> | ->]%orb_true_iff; by rewrite ?orb_true_r.
Qed.

Lemma detectAndMarkPageType_eligible_witness :
  Content.detectAndMarkPageType "/oauth" "eu-west-1.signin.aws.amazon.com" = true ∧
  Content.shouldApplyAliases "/oauth" "eu-west-1.signin.aws.amazon.com" = true.
Proof.
  split; [reflexivity |].
  apply (detectAndMarkPageType_eligible "/oauth" "eu-west-1.signin.aws.amazon.com").
  reflexivity.
Defined.

(** ** The identifier in a multi-session URL *)

Section url.
Implicit Types s r w url id : string.

Lemma stripPrefix_intro p r : stripPrefix p (p +:+ r) = Some r.
Proof.
  induction p as [|a p IH]; [by rewrite string_app_nil_l |].
  rewrite string_app_cons. simpl. by rewrite decide_True.
Qed.

Lemma multiSessionHere_sound s id :
  Url.multiSessionHere s = Some id →
  isAccountId id = true ∧ ∃ r, s = "https://" +:+ id +:+ "-" +:+ r.
Proof.
  unfold Url.multiSessionHere. intros H.
  destruct (stripPrefix "https://" s) as [r1|] eqn:H1; [| done].
  apply stripPrefix_app in H1 as ->. cbn [mbind option_bind] in H.
  destruct (Pattern.digits 12 r1) as [[d r2]|] eqn:H2; [| done].
  cbn [mbind option_bind] in H.
  destruct (stripPrefix "-" r2) as [r3|] eqn:H3; [| done].
  apply stripPrefix_app in H3 as ->. cbn [mbind option_bind] in H.
  destruct (Url.label r3) as [r4|]; [| done]. cbn [mbind option_bind] in H.
  assert (id = d) as ->.
  { destruct (Url.label r4 ≫= stripPrefix Url.consoleDomain); [congruence |].
    destruct (stripPrefix Url.consoleDomain r4); simpl in H; congruence. }
  pose proof (digits_allDigits _ _ _ _ H2) as Hd.
  apply digits_app in H2 as [-> Hlen].
  split; [by apply isAccountId_iff | by eexists].
Qed.

Lemma wordRun_dot w r :
  Url.wordRun w = (w, "") → Url.wordRun (w +:+ "." +:+ r) = (w, "." +:+ r).
Proof.
  induction w as [|c w IH]; [done |].
  rewrite string_app_cons. simpl.
  destruct (Url.isWordOrHyphen c); [| done].
  destruct (Url.wordRun w) as [w' r'] eqn:Hw. intros [= -> ->].
  by rewrite IH.
Qed.

Lemma label_intro w r :
  Url.wordRun w = (w, "") → w ≠ "" → Url.label (w +:+ "." +:+ r) = Some r.
Proof.
  intros Hw Hne. unfold Url.label. rewrite (wordRun_dot w r Hw).
  by destruct w.
Qed.

End url.

(** X21. What [extractAccountIdFromUrl] returns is a canonical identifier, and it
    stands in the URL between ["https://"] and a hyphen. *)
Theorem extractAccountIdFromUrl_sound (url id : string) :
  extractAccountIdFromUrl url = Some id →
  isAccountId id = true ∧
  Js.includes url ("https://" +:+ id +:+ "-") = true.
Proof.
  unfold extractAccountIdFromUrl.
  induction url as [|c url IH]; cbn [Url.matchMultiSession].
  - intros H. by vm_compute in H.
  - destruct (Url.multiSessionHere (String c url)) as [id'|] eqn:Hm.
    + intros [= ->]. apply multiSessionHere_sound in Hm as [Hid [r Hr]].
      split; [done |]. rewrite Hr. apply includes_spec.
      exists "", r. by rewrite string_app_nil_l, !string_app_assoc.
    + intros [Hid Hinc]%IH. split; [done |].
      cbn [Js.includes]. rewrite Hinc. apply orb_true_r.
Qed.

Lemma extractAccountIdFromUrl_sound_witness :
  extractAccountIdFromUrl
    "see https://123456789012-abcd1234.us-east-1.console.aws.amazon.com/console/home"
  = Some "123456789012" ∧ isAccountId "123456789012" = true.
Proof.
  split; [reflexivity |].
  apply (extractAccountIdFromUrl_sound
           "see https://123456789012-abcd1234.us-east-1.console.aws.amazon.com/console/home"
           "123456789012").
  reflexivity.
Defined.

(** X22. A multi-session console URL gives its identifier: ["https://"], twelve
    digits, a hyphen, a session name, optionally a region, then
    ["console.aws.amazon.com"], the names being runs of word characters and
    hyphens. *)
Theorem extractAccountIdFromUrl_console (id session region rest : string) :
  isAccountId id = true →
  Url.wordRun session = (session, "") → session ≠ "" →
  Url.wordRun region = (region, "") → region ≠ "" →
  extractAccountIdFromUrl
    ("https://" +:+ id +:+ "-" +:+ session +:+ "." +:+ region +:+ "." +:+
     Url.consoleDomain +:+ rest) = Some id ∧
  extractAccountIdFromUrl
    ("https://" +:+ id +:+ "-" +:+ session +:+ "." +:+ Url.consoleDomain +:+ rest)
  = Some id.
Proof.
  intros [Hd Hlen]%isAccountId_iff Hs Hsne Hr Hrne.
  assert (∀ tail,
    (Url.label tail ≫= stripPrefix Url.consoleDomain ≠ None ∨
     stripPrefix Url.consoleDomain tail ≠ None) →
    extractAccountIdFromUrl
      ("https://" +:+ id +:+ "-" +:+ session +:+ "." +:+ tail) = Some id) as Hhere.
  { intros tail Htail. unfold extractAccountIdFromUrl.
    assert (Url.multiSessionHere
              ("https://" +:+ id +:+ "-" +:+ session +:+ "." +:+ tail) = Some id)
      as Hm.
    { unfold Url.multiSessionHere. rewrite stripPrefix_intro.
      cbn [mbind option_bind].
      pose proof (digits_intro id ("-" +:+ session +:+ "." +:+ tail) Hd) as H2.
      rewrite Hlen in H2. rewrite H2. cbn [mbind option_bind].
      rewrite stripPrefix_intro. cbn [mbind option_bind].
      rewrite label_intro by done. cbn [mbind option_bind].
      destruct (Url.label tail ≫= stripPrefix Url.consoleDomain); [done |].
      destruct (stripPrefix Url.consoleDomain tail); [done |].
      by destruct Htail. }
    change ("https://" +:+ ?x) with (String "h" ("ttps://" +:+ x)) in *.
    simpl. by rewrite Hm. }
  split.
  - apply Hhere. left. rewrite label_intro by done. cbn [mbind option_bind].
    by rewrite stripPrefix_intro.
  - apply Hhere. right. by rewrite stripPrefix_intro.
Qed.

Lemma extractAccountIdFromUrl_console_witness :
  extractAccountIdFromUrl
    "https://123456789012-abcd1234.us-east-1.console.aws.amazon.com/console/home"
  = Some "123456789012" ∧
  extractAccountIdFromUrl
    "https://123456789012-abcd1234.console.aws.amazon.com/console/home"
  = Some "123456789012".
Proof.
  apply (extractAccountIdFromUrl_console "123456789012" "abcd1234" "us-east-1"
           "/console/home"); [reflexivity | reflexivity | done | reflexivity | done].
Defined.

(** ** The identifier field of the settings page *)

Section popup.
Implicit Types s d value a b : string.

Lemma allDigits_clean value :
  Popup.allDigits (normalizeAccountId (Popup.digitsAndHyphens value)) = true.
Proof.
  induction value as [|c value IH]; [done |]. simpl.
  destruct (Js.isDigit c) eqn:Hc; simpl.
  - rewrite decide_False by by apply isDigit_not_hyphen. simpl. by rewrite Hc.
  - case_bool_decide as Hh; [| done]. simpl. by rewrite decide_True.
Qed.

Lemma allDigits_take n d : Popup.allDigits d = true → Popup.allDigits (Js.take n d) = true.
Proof.
  revert n. induction d as [|c d IH]; intros [|n]; simpl; try done.
  intros [-> ?]%andb_true_iff. by apply IH.
Qed.

Lemma allDigits_drop n d : Popup.allDigits d = true → Popup.allDigits (Js.drop n d) = true.
Proof.
  revert n. induction d as [|c d IH]; intros [|n]; simpl; try done.
  intros [_ ?]%andb_true_iff. by apply IH.
Qed.

Lemma allDigits_slice x y d :
  Popup.allDigits d = true → Popup.allDigits (Js.slice x y d) = true.
Proof. intros Hd. by apply allDigits_take, allDigits_drop. Qed.

Lemma length_take_string n s :
  String.length (Js.take n s) = n `min` String.length s.
Proof.
  revert n. induction s as [|c s IH]; intros [|n]; simpl; try done.
  by rewrite IH.
Qed.

Lemma take_nil n : Js.take n "" = "".
Proof. by destruct n. Qed.

Lemma drop_nil n : Js.drop n "" = "".
Proof. by destruct n. Qed.

Lemma take_slice x y s :
  x ≤ y → Js.take x s +:+ Js.slice x y s = Js.take y s.
Proof.
  unfold Js.slice. revert x y. induction s as [|c s IH]; intros x y Hxy.
  - by rewrite drop_nil, !take_nil.
  - destruct x as [|x].
    + by rewrite Nat.sub_0_r.
    + destruct y as [|y]; [lia |]. simpl.
      rewrite string_app_cons. f_equal. apply IH. lia.
Qed.

Lemma digitsAndHyphens_app a b :
  Popup.digitsAndHyphens (a +:+ b)
  = Popup.digitsAndHyphens a +:+ Popup.digitsAndHyphens b.
Proof.
  induction a as [|c a IH]; [done |]. rewrite string_app_cons. simpl.
  destruct (Js.isDigit c || bool_decide (c = "-"%char)); [| done].
  by rewrite string_app_cons, IH.
Qed.

Lemma digitsAndHyphens_allDigits d :
  Popup.allDigits d = true → Popup.digitsAndHyphens d = d.
Proof.
  induction d as [|c d IH]; [done |]. simpl.
  intros [-> Hd]%andb_true_iff. simpl. by rewrite IH.
Qed.

(** The grouping is made of digits and hyphens only. *)
Lemma digitsAndHyphens_grouped d :
  Popup.allDigits d = true → Popup.digitsAndHyphens (Popup.grouped d) = Popup.grouped d.
Proof.
  intros Hd. unfold Popup.grouped.
  repeat case_bool_decide;
    rewrite ?digitsAndHyphens_app;
    change (Popup.digitsAndHyphens "-") with "-";
    change (Popup.digitsAndHyphens "") with "";
    rewrite ?digitsAndHyphens_allDigits;
    auto using allDigits_slice, allDigits_drop.
Qed.

(** What [validateAccountId] leaves in the field once four digits are there:
    the grouping of the digits typed. *)
Lemma validateAccountId_grouped value :
  let d := normalizeAccountId (Popup.digitsAndHyphens value) in
  4 ≤ String.length d → Popup.validateAccountId value = Popup.grouped d.
Proof.
  intros d Hlen. unfold Popup.validateAccountId. fold d.
  pose proof (allDigits_clean value) as Hd. fold d in Hd. clearbody d.
  unfold Popup.atLeastFourDigits. rewrite Hd, !bool_decide_eq_true_2 by done.
  simpl. case_bool_decide as Hg; [done |].
  assert (Popup.grouped d = value) as Hv by by destruct (decide (Popup.grouped d = value)).
  subst value. rewrite digitsAndHyphens_grouped by done.
  by rewrite bool_decide_eq_false_2 by by intros [].
Qed.

End popup.

(** X23. What the form of the settings page accepts as an identifier is stored
    under a canonical key: an input that passes [validateAccountIdFormat]
    normalizes to twelve digits. *)
Theorem validateAccountIdFormat_canonical (accountId : string) :
  Popup.validateAccountIdFormat accountId = true →
  isAccountId (normalizeAccountId accountId) = true.
Proof.
  unfold Popup.validateAccountIdFormat. intros [Hid | Hf]%orb_true_iff.
  - pose proof Hid as [Hd _]%isAccountId_iff.
    by rewrite normalizeAccountId_allDigits.
  - destruct (Pattern.formatted accountId) as [[m [|??]]|] eqn:Hm; try done.
    pose proof (formatted_app _ _ _ Hm) as [-> _]. rewrite string_app_nil_r.
    apply formatted_inv in Hm as (a & b & c & -> & Hd & La & Lb & Lc).
    rewrite normalizeAccountId_groups by done.
    apply isAccountId_iff. split; [done |]. rewrite !string_length_app. lia.
Qed.

Lemma validateAccountIdFormat_canonical_witness :
  Popup.validateAccountIdFormat "1234-5678-9012" = true ∧
  isAccountId (normalizeAccountId "1234-5678-9012") = true.
Proof.
  split; [reflexivity |].
  apply (validateAccountIdFormat_canonical "1234-5678-9012"). reflexivity.
Defined.

(** X24. Once twelve digits or more have been typed or pasted into the identifier
    field, in whatever grouping and with whatever else between them,
    [validateAccountId] leaves the first twelve digits there in the 4-4-4
    form: the field then passes [validateAccountIdFormat], and further digits
    are dropped. *)
Theorem validateAccountId_twelve_digits (value : string) :
  let digits := normalizeAccountId (Popup.digitsAndHyphens value) in
  12 ≤ String.length digits →
  Popup.validateAccountId value
  = Js.slice 0 4 digits +:+ "-" +:+ Js.slice 4 8 digits +:+ "-" +:+ Js.slice 8 12 digits ∧
  Popup.validateAccountIdFormat (Popup.validateAccountId value) = true ∧
  normalizeAccountId (Popup.validateAccountId value) = Js.take 12 digits.
Proof.
  intros d Hlen.
  pose proof (allDigits_clean value) as Hd. fold d in Hd.
  assert (Popup.validateAccountId value
          = Js.slice 0 4 d +:+ "-" +:+ Js.slice 4 8 d +:+ "-" +:+ Js.slice 8 12 d)
    as ->.
  { rewrite validateAccountId_grouped by (fold d; lia). fold d.
    unfold Popup.grouped. by rewrite !bool_decide_eq_true_2 by lia. }
  split; [done |].
  assert (String.length (Js.slice 0 4 d) = 4 ∧ String.length (Js.slice 4 8 d) = 4 ∧
          String.length (Js.slice 8 12 d) = 4) as (La & Lb & Lc).
  { unfold Js.slice. rewrite !length_take_string, !length_drop_string. lia. }
  split.
  - unfold Popup.validateAccountIdFormat. apply orb_true_iff. right.
    pose proof (formatted_intro (Js.slice 0 4 d) (Js.slice 4 8 d) (Js.slice 8 12 d) "")
      as Hf.
    rewrite !string_app_nil_r in Hf.
    by rewrite Hf by auto using allDigits_slice.
  - rewrite normalizeAccountId_groups
      by (rewrite !allDigits_app; by rewrite !allDigits_slice).
    rewrite <- (take_slice 8 12 d) by lia.
    rewrite <- (take_slice 4 8 d) by lia.
    by rewrite string_app_assoc.
Qed.

Lemma validateAccountId_twelve_digits_witness :
  Popup.validateAccountId "ID: 123456 789012 345" = "1234-5678-9012" ∧
  Popup.validateAccountIdFormat (Popup.validateAccountId "ID: 123456 789012 345") = true.
Proof.
  destruct (validateAccountId_twelve_digits "ID: 123456 789012 345") as (H1 & H2 & _).
  - simpl. lia.
  - split; [exact H1 | exact H2].
Defined.

(** ** The store: single entries, and export followed by import *)

Section entries.
Implicit Types (k key : string) (v : json) (ms members : list (string * json)).
Implicit Types (st : storage).

Lemma lookup_setProperty_eq key v ms :
  Json.lookup key (Aliases.setProperty key v ms) = Some v.
Proof.
  induction ms as [|[k w] ms IH]; simpl; [by rewrite decide_True |].
  case_decide as Hk; simpl; [by rewrite decide_True | by rewrite decide_False].
Qed.

Lemma lookup_setProperty_ne key k v ms :
  k ≠ key → Json.lookup k (Aliases.setProperty key v ms) = Json.lookup k ms.
Proof.
  intros Hne. induction ms as [|[k' w] ms IH]; simpl; [by rewrite decide_False |].
  case_decide as Hk; simpl.
  - subst k'. by rewrite !decide_False by done.
  - by rewrite IH.
Qed.

Lemma lookup_deleteProperty_eq key ms :
  Json.lookup key (Aliases.deleteProperty key ms) = None.
Proof.
  unfold Aliases.deleteProperty.
  induction ms as [|[k w] ms IH]; [done |].
  rewrite filter_cons. simpl. case_decide as Hk; [| done].
  simpl. by rewrite decide_False.
Qed.

Lemma lookup_deleteProperty_ne key k ms :
  k ≠ key →
  Json.lookup k (Aliases.deleteProperty key ms) = Json.lookup k ms.
Proof.
  intros Hne. unfold Aliases.deleteProperty.
  induction ms as [|[k' w] ms IH]; [done |].
  rewrite filter_cons. simpl. case_decide as Hk; simpl.
  - by rewrite IH.
  - simpl in Hk. subst k'. by rewrite decide_False.
Qed.

Lemma keys_setProperty key v ms :
  isAccountId key = true →
  Forall (λ member, isAccountId member.1 = true) ms →
  Forall (λ member, isAccountId member.1 = true) (Aliases.setProperty key v ms).
Proof.
  intros Hkey. induction 1 as [|[k w] ms Hk Hms IH]; simpl; [by repeat constructor |].
  case_decide; by constructor.
Qed.

Lemma lookup_not_key key ms :
  isAccountId key = false →
  Forall (λ member, isAccountId member.1 = true) ms →
  Json.lookup key ms = None.
Proof.
  intros Hkey. induction 1 as [|[k w] ms Hk _ IH]; [done |]. simpl.
  case_decide; [| done]. simpl in Hk. congruence.
Qed.

Lemma firstInvalidKey_None ms :
  Forall (λ member, isAccountId member.1 = true) ms →
  StorageManager.firstInvalidKey (JObject ms) = None.
Proof.
  intros Hms. unfold StorageManager.firstInvalidKey. simpl.
  assert (list_find (λ entry : string * json, isAccountId entry.1 = false) ms = None)
    as ->; [| done].
  apply list_find_None. eapply Forall_impl; [exact Hms |].
  intros entry Hentry. simpl. by rewrite Hentry.
Qed.

Lemma validEntry_key ms :
  Forall validEntry ms → Forall (λ member, isAccountId member.1 = true) ms.
Proof. intros H. eapply Forall_impl; [exact H |]. by intros entry [? _]. Qed.

End entries.

(** X26. What [setAlias] stores under a twelve-digit identifier, [getAlias] reads
    back, unless the label is the empty string, which reads as [null]; every
    other identifier reads as before, and the keys stay canonical if they
    were. *)
Theorem setAlias_getAlias
    (accountId alias : string) (st : storage) (members : list (string * json)) :
  isAccountId accountId = true →
  StorageManager.getAllAliases st = JObject members →
  ∃ st', Aliases.setAlias accountId alias st = Some st' ∧
    Aliases.getAlias accountId st'
    = Some (if Js.truthy alias then JString alias else JNull) ∧
    (∀ other, other ≠ accountId →
       Aliases.getAlias other st' = Aliases.getAlias other st) ∧
    (Forall (λ member, isAccountId member.1 = true) members →
     Forall (λ member, isAccountId member.1 = true)
            (Json.entries (StorageManager.getAllAliases st'))).
Proof.
  intros Hid Hst. unfold Aliases.setAlias. rewrite Hid, Hst.
  eexists. split; [reflexivity |]. split; [| split].
  - unfold Aliases.getAlias. rewrite Hid. simpl.
    rewrite lookup_setProperty_eq. by destruct alias.
  - intros other Hother. unfold Aliases.getAlias.
    destruct (isAccountId other); [| done]. rewrite Hst. simpl.
    by rewrite lookup_setProperty_ne.
  - intros Hkeys. simpl. by apply keys_setProperty.
Qed.

Lemma setAlias_getAlias_witness :
  let st := Some (JObject [ ("111111111111", JString "Dev") ]) in
  ∃ st', Aliases.setAlias "123456789012" "Prod" st = Some st' ∧
    Aliases.getAlias "123456789012" st' = Some (JString "Prod") ∧
    Aliases.getAlias "111111111111" st' = Some (JString "Dev").
Proof.
  destruct (setAlias_getAlias "123456789012" "Prod"
              (Some (JObject [ ("111111111111", JString "Dev") ]))
              [ ("111111111111", JString "Dev") ])
    as (st' & Hset & Hget & Hother & _); [reflexivity | reflexivity |].
  exists st'. split; [exact Hset |]. split; [exact Hget |].
  rewrite Hother by done. reflexivity.
Defined.

(** X27. After [removeAlias], [getAlias] of the identifier is [null], and every
    other identifier reads as before. *)
Theorem removeAlias_getAlias
    (accountId : string) (st : storage) (members : list (string * json)) :
  isAccountId accountId = true →
  StorageManager.getAllAliases st = JObject members →
  ∃ st', Aliases.removeAlias accountId st = Some st' ∧
    Aliases.getAlias accountId st' = Some JNull ∧
    (∀ other, other ≠ accountId →
       Aliases.getAlias other st' = Aliases.getAlias other st).
Proof.
  intros Hid Hst. unfold Aliases.removeAlias. rewrite Hid, Hst.
  eexists. split; [reflexivity |]. split.
  - unfold Aliases.getAlias. rewrite Hid. simpl.
    by rewrite lookup_deleteProperty_eq.
  - intros other Hother. unfold Aliases.getAlias.
    destruct (isAccountId other); [| done]. rewrite Hst. simpl.
    by rewrite lookup_deleteProperty_ne.
Qed.

Lemma removeAlias_getAlias_witness :
  let st := Some (JObject [ ("111111111111", JString "Dev");
                            ("123456789012", JString "Prod") ]) in
  ∃ st', Aliases.removeAlias "123456789012" st = Some st' ∧
    Aliases.getAlias "123456789012" st' = Some JNull ∧
    Aliases.getAlias "111111111111" st' = Some (JString "Dev").
Proof.
  destruct (removeAlias_getAlias "123456789012"
              (Some (JObject [ ("111111111111", JString "Dev");
                               ("123456789012", JString "Prod") ]))
              [ ("111111111111", JString "Dev"); ("123456789012", JString "Prod") ])
    as (st' & Hrm & Hget & Hother); [reflexivity | reflexivity |].
  exists st'. split; [exact Hrm |]. split; [exact Hget |].
  rewrite Hother by done. reflexivity.
Defined.

(** X28. What [StorageManager.exportAliases] serializes, [StorageManager.
    importAliases] takes back: for a stored object whose keys are canonical
    the import succeeds and stores the same object, whatever was stored
    before. *)
Theorem export_import_roundtrip
    (members : list (string * json)) (before : storage) :
  Forall (λ member, isAccountId member.1 = true) members →
  StorageManager.importAliases
    (Ok (StorageManager.exportAliases (Some (JObject members)))) before
  = (Ok (), Some (JObject members)).
Proof.
  intros Hkeys. unfold StorageManager.importAliases. simpl.
  by rewrite firstInvalidKey_None.
Qed.

Lemma export_import_roundtrip_witness :
  let members := [ ("123456789012", JString "Prod") ] in
  StorageManager.importAliases
    (Ok (StorageManager.exportAliases (Some (JObject members)))) None
  = (Ok (), Some (JObject members)).
Proof.
  apply (export_import_roundtrip [ ("123456789012", JString "Prod") ] None).
  repeat constructor.
Defined.

(** X29. What the background script exports, [StorageManager.importAliases]
    never takes: whatever is stored, the document starts with the member
    [version], which is no identifier, and the storage stays as it was. *)
Theorem background_export_rejected (now : string) (st before : storage) :
  ∃ doc, Background.handleExportAliases now st = Ok doc ∧
    StorageManager.importAliases (Ok doc) before
    = (Error "Failed to import aliases: Invalid account ID: version", before).
Proof. eexists. split; reflexivity. Qed.

(** X30. The handler of the background script takes a valid mapping in either
    shape, bare or as the member [aliases] of what [handleExportAliases]
    built from it, and stores exactly the mapping. *)
Theorem handleImportAliases_both_shapes
    (data now : string) (members : list (string * json)) (before : storage) :
  data ≠ "" →
  Forall validEntry members →
  Background.handleImportAliases data (Ok (JObject members)) before
  = (Ok (JObject members), Some (JObject members)) ∧
  ∃ doc, Background.handleExportAliases now (Some (JObject members)) = Ok doc ∧
    Background.handleImportAliases data (Ok doc) before
    = (Ok (JObject members), Some (JObject members)).
Proof.
  intros Hdata Hvalid.
  assert (Js.truthy data = true) as Htruthy by by destruct data.
  apply firstInvalidEntry_None in Hvalid as Hnone.
  split; [| eexists; split; [reflexivity |]].
  - unfold Background.handleImportAliases. rewrite Htruthy. simpl.
    unfold Background.chooseAliases. simpl.
    rewrite (lookup_not_key "aliases" members) by (done || by apply validEntry_key).
    simpl. by rewrite Hnone.
  - unfold Background.handleImportAliases. rewrite Htruthy. simpl.
    by rewrite Hnone.
Qed.

Lemma handleImportAliases_both_shapes_witness :
  let members := [ ("123456789012", JString "Prod") ] in
  Background.handleImportAliases "{...}" (Ok (JObject members)) None
  = (Ok (JObject members), Some (JObject members)).
Proof.
  apply (handleImportAliases_both_shapes "{...}" "2024-01-01T00:00:00.000Z"
           [ ("123456789012", JString "Prod") ] None); [done |].
  repeat constructor. by exists "Prod".
Defined.

Section popup_stable.
Implicit Types s d value : string.

Lemma take_all n s : String.length s ≤ n → Js.take n s = s.
Proof.
  revert n. induction s as [|c s IH]; intros [|n] Hn; simpl in *; try done; [lia |].
  rewrite IH; [done | lia].
Qed.

Lemma take_drop n s : Js.take n s +:+ Js.drop n s = s.
Proof.
  revert n. induction s as [|c s IH]; intros [|n]; simpl; try done.
  by rewrite string_app_cons, IH.
Qed.

Lemma slice_0 y s : Js.slice 0 y s = Js.take y s.
Proof. unfold Js.slice. by rewrite Nat.sub_0_r. Qed.

Lemma take_take x n s : x ≤ n → Js.take x (Js.take n s) = Js.take x s.
Proof.
  revert x n. induction s as [|c s IH]; intros [|x] [|n] Hxn; simpl; try done; [lia |].
  rewrite IH; [done | lia].
Qed.

Lemma drop_take x n s : Js.drop x (Js.take n s) = Js.take (n - x) (Js.drop x s).
Proof.
  revert x n. induction s as [|c s IH]; intros x n.
  - by rewrite !take_nil, !drop_nil, take_nil.
  - destruct x as [|x]; [by rewrite Nat.sub_0_r |].
    destruct n as [|n]; simpl; [by destruct (Js.drop x s) | apply IH].
Qed.

Lemma slice_take x y n s : y ≤ n → Js.slice x y (Js.take n s) = Js.slice x y s.
Proof.
  intros Hyn. unfold Js.slice. rewrite drop_take. apply take_take. lia.
Qed.

Lemma digitsAndHyphens_idempotent value :
  Popup.digitsAndHyphens (Popup.digitsAndHyphens value) = Popup.digitsAndHyphens value.
Proof.
  induction value as [|c value IH]; [done |]. simpl.
  destruct (Js.isDigit c || bool_decide (c = "-"%char)) eqn:Hc; [| done].
  simpl. by rewrite Hc, IH.
Qed.

Lemma validateAccountId_short value :
  String.length (normalizeAccountId (Popup.digitsAndHyphens value)) < 4 →
  Popup.validateAccountId value = Popup.digitsAndHyphens value.
Proof.
  intros Hlen. unfold Popup.validateAccountId.
  rewrite (bool_decide_eq_false_2 (4 ≤ _)) by lia.
  rewrite andb_false_r. simpl. case_bool_decide as Hc; [done |].
  by destruct (decide (Popup.digitsAndHyphens value = value)).
Qed.

(** The digits of the grouping are the first twelve digits. *)
Lemma normalizeAccountId_grouped d :
  Popup.allDigits d = true → 4 ≤ String.length d →
  normalizeAccountId (Popup.grouped d) = Js.take 12 d.
Proof.
  intros Hd Hlen. unfold Popup.grouped. rewrite slice_0.
  assert (∀ x y, normalizeAccountId (Js.slice x y d) = Js.slice x y d) as Hslice
    by (intros; by apply normalizeAccountId_allDigits, allDigits_slice).
  assert (∀ x, normalizeAccountId (Js.drop x d) = Js.drop x d) as Hdrop
    by (intros; by apply normalizeAccountId_allDigits, allDigits_drop).
  assert (∀ x, normalizeAccountId (Js.take x d) = Js.take x d) as Htake
    by (intros; by apply normalizeAccountId_allDigits, allDigits_take).
  repeat case_bool_decide;
    rewrite ?normalizeAccountId_app, ?Hslice, ?Hdrop, ?Htake;
    change (normalizeAccountId "-") with "";
    change (normalizeAccountId "") with "";
    rewrite ?string_app_nil_l, ?string_app_nil_r.
  - rewrite <- (take_slice 8 12 d), <- (take_slice 4 8 d) by lia.
    by rewrite string_app_assoc.
  - rewrite <- string_app_assoc, (take_slice 4 8 d), take_drop by lia.
    by rewrite take_all by lia.
  - rewrite (take_slice 4 8 d) by lia. by rewrite !take_all by lia.
  - rewrite take_drop. by rewrite take_all by lia.
  - by rewrite !take_all by lia.
Qed.

Lemma grouped_take d :
  4 ≤ String.length d → Popup.grouped (Js.take 12 d) = Popup.grouped d.
Proof.
  intros Hlen. destruct (decide (String.length d ≤ 12)) as [Hle | Hgt].
  - by rewrite take_all.
  - unfold Popup.grouped. rewrite length_take_string.
    rewrite !slice_take by lia.
    by rewrite !bool_decide_eq_true_2 by lia.
Qed.

End popup_stable.

(** X25. The automatic grouping of the identifier field is stable: run on what
    it left in the field, [validateAccountId] leaves the same. *)
Theorem validateAccountId_idempotent (value : string) :
  Popup.validateAccountId (Popup.validateAccountId value)
  = Popup.validateAccountId value.
Proof.
  pose proof (allDigits_clean value) as Hd.
  destruct (decide (4 ≤ String.length
                          (normalizeAccountId (Popup.digitsAndHyphens value))))
    as [Hlen | Hlen].
  - rewrite (validateAccountId_grouped value Hlen).
    set (d := normalizeAccountId (Popup.digitsAndHyphens value)) in *.
    assert (normalizeAccountId (Popup.digitsAndHyphens (Popup.grouped d))
            = Js.take 12 d) as Hd'.
    { by rewrite digitsAndHyphens_grouped, normalizeAccountId_grouped. }
    rewrite validateAccountId_grouped; rewrite Hd'.
    + by apply grouped_take.
    + rewrite length_take_string. lia.
  - rewrite (validateAccountId_short value) by lia.
    rewrite validateAccountId_short
      by (rewrite digitsAndHyphens_idempotent; lia).
    apply digitsAndHyphens_idempotent.
Qed.

(** X7. From a fresh pattern, two tests in a row on a text that holds an
    identifier: the first answers [true], the second answers whether another
    identifier follows the first one. *)
Theorem test_twice (s pre m post : string) :
  Pattern.search s = Some (pre, m, post) →
  ((first <~ AccountIdPattern.test s;;
    second <~ AccountIdPattern.test s;;
    ret (first, second)) 0).1
  = (true, bool_decide (is_Some (Pattern.search post))).
Proof.
  intros Hs. destruct (test_after_match s pre m post Hs) as [H1 H2].
  unfold bind at 1. rewrite H1. unfold bind, ret.
  destruct (AccountIdPattern.test s (String.length pre + String.length m))
    as [second l2]. simpl in *. by rewrite H2.
Qed.

Lemma test_twice_witness :
  ((first <~ AccountIdPattern.test "1234-5678-9012 / 123456789012";;
    second <~ AccountIdPattern.test "1234-5678-9012 / 123456789012";;
    ret (first, second)) 0).1 = (true, true).
Proof.
  apply (test_twice "1234-5678-9012 / 123456789012" "" "1234-5678-9012"
           " / 123456789012").
  reflexivity.
Defined.

(** X13. After [clearAliasesFromElement], no span of class [aws-custom-alias] and
    no element marked [data-alias-applied="true"] is left below the element,
    whatever the tree was. *)
Theorem clearAliasesFromElement_leaves_nothing (e : element) (cs : list node) :
  ∃ cs', clearAliasesFromElement e cs = Element e cs' ∧
    querySelectorFinds ALIAS_SPAN cs' = false ∧
    querySelectorFinds ALIAS_APPLIED cs' = false.
Proof.
  exists (map removeMarks (removeSpansEach removeAliasSpans [] cs)).
  split; [done |].
  destruct (cleared_children cs) as [Hspans Hmarks].
  unfold querySelectorFinds. by rewrite !existsb_false_Forall.
Qed.
